(** * UTXO transaction validator: a shallow embedding of
      [src/transaction-validator.ts] and the properties of its verdicts.

    Conventions of the embedding.
    - A JavaScript [number] holding an amount, an output index or a timestamp
      is an integer of [Z] (the amounts of the ledger are integral), added
      and compared as in [Z] and printed as its decimal numeral.  The source
      works on doubles: its sums are the sums of [Z] as long as they stay
      within 2^53 in magnitude ([exactTotals]), and it prints decimal
      numerals below 10^21 in magnitude.  The statements that depend on the
      value of a total or on the text of a numeral carry these ranges as
      hypotheses; the others count and compare errors, and hold whatever the
      totals are.
    - A JavaScript string is a [string], one character per code unit.
    - An object that the source hands to [JSON.stringify] as it is keeps the
      order of its own properties ([JS.Member]).
    - The objects that outlive a call (the pool behind [this.utxoPool] and the
      transaction the caller passes) and the two objects the call allocates
      (the [errors] array and the [seenUTXOs] set) live in an explicit
      [Store]; the routine is written in a state monad over it.  The two
      [let] accumulators are loop-carried values. *)

From Stdlib Require Import ZArith String Ascii List Decimal DecimalString DecimalZ Lia.
From stdpp Require Import base option list sets gmap strings.

Local Open Scope Z_scope.

(** ** JavaScript primitives used by the validator *)

Module JS.

(** [String(n)] / [`${n}`] for an integral number: its decimal numeral, which
    is what JavaScript prints below 10^21 in magnitude (from there on it
    prints an exponent form, which the embedding does not follow). *)
Definition numberToString (n : Z) : string :=
  NilZero.string_of_int (Z.to_int n).

Definition dquote : ascii := ascii_of_nat 34.
Definition backslash : ascii := ascii_of_nat 92.

Definition hexDigit (n : N) : ascii :=
  match n with
  | 0 => "0" | 1 => "1" | 2 => "2" | 3 => "3" | 4 => "4" | 5 => "5"
  | 6 => "6" | 7 => "7" | 8 => "8" | 9 => "9" | 10 => "a" | 11 => "b"
  | 12 => "c" | 13 => "d" | 14 => "e" | _ => "f"
  end%N%char.

(** [QuoteJSONString], one code unit: the two-character escapes, [\u00xx]
    for the other control characters, the character itself otherwise. *)
Definition escapeChar (c : ascii) : string :=
  let n := N_of_ascii c in
  if (n =? 34)%N then String backslash (String dquote EmptyString)
  else if (n =? 92)%N then String backslash (String backslash EmptyString)
  else if (n =? 8)%N then String backslash "b"
  else if (n =? 12)%N then String backslash "f"
  else if (n =? 10)%N then String backslash "n"
  else if (n =? 13)%N then String backslash "r"
  else if (n =? 9)%N then String backslash "t"
  else if (n <? 32)%N then
    String backslash
      (String "u" (String "0" (String "0"
         (String (hexDigit (n / 16)) (String (hexDigit (n mod 16)) EmptyString)))))
  else String c EmptyString.

Fixpoint escape (s : string) : string :=
  match s with
  | EmptyString => EmptyString
  | String c s' => escapeChar c +:+ escape s'
  end.

(** [JSON.stringify] of a string, of a number, of an array whose elements
    are already serialised, and of one [key:value] member of an object. *)
Definition stringifyString (s : string) : string :=
  String dquote (escape s +:+ String dquote EmptyString).

Definition stringifyNumber (n : Z) : string := numberToString n.

Fixpoint joinComma (items : list string) : string :=
  match items with
  | [] => EmptyString
  | [x] => x
  | x :: rest => x +:+ "," +:+ joinComma rest
  end.

Definition stringifyArray (items : list string) : string :=
  "[" +:+ joinComma items +:+ "]".

Definition member (key value : string) : string :=
  stringifyString key +:+ ":" +:+ value.

Definition stringifyObject (members : list string) : string :=
  "{" +:+ joinComma members +:+ "}".

(** What [JSON.stringify] meets when it visits an object that is handed to it
    as it is: the own properties it emits, in the order it visits them.  A
    property is one of the typed fields [F] of the object, whose value the
    data model holds, or another own property, given by its key and by the
    text [JSON.stringify] produces for its value. *)
Inductive Member (F : Type) : Type :=
  | Field (f : F)
  | Other (key text : string).
Arguments Field {F} f.
Arguments Other {F} key text.

Definition stringifyMembers {F : Type} (field : F -> string)
           (members : list (Member F)) : string :=
  stringifyObject
    (map (fun m => match m with
                   | Field f => field f
                   | Other key text => member key text
                   end) members).

End JS.

(** ** Data model ([./types], [./errors]) *)

(** Modelled from the spec: [./types] is not among the sources.  A UTXO
    identifier is the pair the validator reads as [utxoId.txId] and
    [utxoId.outputIndex]. *)
Module UtxoId.
Record t := mk { txId : string; outputIndex : Z }.
Inductive Key := KtxId | KoutputIndex.
End UtxoId.

(** Modelled from the spec: the record the pool returns, [{id, amount,
    recipient}]. *)
Module UTXO.
Record t := mk { id : UtxoId.t; amount : Z; recipient : string }.
End UTXO.

(** Modelled from the spec: [{utxoId, owner, signature}].  The object behind
    [utxoId] is passed on to [JSON.stringify] as it is (line 81):
    [utxoIdMembers] holds its own properties in the order they are
    visited. *)
Module TransactionInput.
Record t := mk {
  utxoId : UtxoId.t;
  utxoIdMembers : list (JS.Member UtxoId.Key);
  owner : string;
  signature : string
}.
End TransactionInput.

(** Modelled from the spec: [{amount, recipient}].  An output object is
    passed on to [JSON.stringify] as it is (line 84): [members] holds its own
    properties in the order they are visited. *)
Module TransactionOutput.
Inductive Key := Kamount | Krecipient.
Record t := mk {
  amount : Z;
  recipient : string;
  members : list (JS.Member Key)
}.
End TransactionOutput.

(** Modelled from the spec: [{id, inputs, outputs, timestamp}]. *)
Module Transaction.
Record t := mk {
  id : string;
  inputs : list TransactionInput.t;
  outputs : list TransactionOutput.t;
  timestamp : Z
}.
End Transaction.

(** Modelled from the spec: the error kinds of [VALIDATION_ERRORS]. *)
Inductive VALIDATION_ERRORS : Set :=
  | UTXO_NOT_FOUND
  | NEGATIVE_AMOUNT
  | AMOUNT_MISMATCH
  | INVALID_SIGNATURE
  | DOUBLE_SPENDING.

(** Modelled from the spec: a validation error is a kind and a message, and
    [createValidationError] pairs them. *)
Record ValidationError := { kind : VALIDATION_ERRORS; message : string }.

Definition createValidationError (k : VALIDATION_ERRORS) (msg : string)
  : ValidationError := {| kind := k; message := msg |}.

(** Modelled from the spec: [{valid, errors}]. *)
Record ValidationResult := { valid : bool; errors : list ValidationError }.

(** Modelled from the spec: the pool is a lookup structure from
    [(sourceTxId, outputIndex)] to the unspent output; [getUTXO] is its point
    lookup and answers nothing for an output that is absent or spent. *)
Abbreviation UTXOPoolManager := (gmap (string * Z) UTXO.t).

#[global] Instance VALIDATION_ERRORS_eq_dec : EqDecision VALIDATION_ERRORS.
Proof. solve_decision. Defined.

#[global] Instance ValidationError_eq_dec : EqDecision ValidationError.
Proof. solve_decision. Defined.

#[global] Instance UtxoId_eq_dec : EqDecision UtxoId.t.
Proof. solve_decision. Defined.

(** ** The store and the monad of the routine *)

Record Store := {
  utxoPool : UTXOPoolManager;          (* this.utxoPool *)
  transaction : Transaction.t;         (* the object behind the argument *)
  errorsArray : list ValidationError;  (* const errors = [] *)
  seenUTXOs : gset string              (* const seenUTXOs = new Set() *)
}.

Definition M (A : Type) : Type := Store -> A * Store.

#[global] Instance M_ret : MRet M := fun A (x : A) s => (x, s).
#[global] Instance M_bind : MBind M :=
  fun A B (f : A -> M B) (m : M A) s => let '(x, s') := m s in f x s'.
#[global] Instance M_fmap : FMap M :=
  fun A B (f : A -> B) (m : M A) s => let '(x, s') := m s in (f x, s').

Definition when (b : bool) (m : M unit) : M unit :=
  if b then m else mret tt.

(** [xs.forEach(x => body)] with the accumulators the body updates carried
    from one iteration to the next. *)
Fixpoint forEach {A B : Type} (xs : list A) (body : B -> A -> M B) (acc : B) : M B :=
  match xs with
  | [] => mret acc
  | x :: rest => acc' ← body acc x; forEach rest body acc'
  end.

(** The primitive operations on the store. *)
Definition newErrors : M unit :=
  fun s => (tt, {| utxoPool := utxoPool s; transaction := transaction s;
                   errorsArray := []; seenUTXOs := seenUTXOs s |}).

Definition newSeenUTXOs : M unit :=
  fun s => (tt, {| utxoPool := utxoPool s; transaction := transaction s;
                   errorsArray := errorsArray s; seenUTXOs := ∅ |}).

Definition push (e : ValidationError) : M unit :=
  fun s => (tt, {| utxoPool := utxoPool s; transaction := transaction s;
                   errorsArray := errorsArray s ++ [e]; seenUTXOs := seenUTXOs s |}).

Definition readErrors : M (list ValidationError) :=
  fun s => (errorsArray s, s).

Definition has (key : string) : M bool :=
  fun s => (bool_decide (key ∈ seenUTXOs s), s).

Definition add (key : string) : M unit :=
  fun s => (tt, {| utxoPool := utxoPool s; transaction := transaction s;
                   errorsArray := errorsArray s; seenUTXOs := {[ key ]} ∪ seenUTXOs s |}).

(** Modelled from the spec: [this.utxoPool.getUTXO(txId, outputIndex)] of
    [./utxo-pool], a point lookup that reads the pool and leaves it as it
    is. *)
Definition getUTXO (txId : string) (outputIndex : Z) : M (option UTXO.t) :=
  fun s => (utxoPool s !! (txId, outputIndex), s).

Definition readTransaction : M Transaction.t :=
  fun s => (transaction s, s).

(** ** The validator ([TransactionValidator]) *)

(** [`${input.utxoId.txId}:${input.utxoId.outputIndex}`] *)
Definition utxoKey (i : UtxoId.t) : string :=
  UtxoId.txId i +:+ ":" +:+ JS.numberToString (UtxoId.outputIndex i).

(** [`${utxo.id}`]: the identifier of a pool record is a plain object, and a
    template literal renders a plain object through
    [Object.prototype.toString]. *)
Definition objectToString (_ : UtxoId.t) : string := "[object Object]".

(** *** [createTransactionDataForSigning] *)

(** The object literal [unsignedTx]: every input reduced to its [utxoId] and
    [owner], the outputs and the timestamp as they are. *)
Record UnsignedInput := {
  u_utxoId : UtxoId.t;
  u_utxoIdMembers : list (JS.Member UtxoId.Key);
  u_owner : string
}.

Record UnsignedTx := {
  u_id : string;
  u_inputs : list UnsignedInput;
  u_outputs : list TransactionOutput.t;
  u_timestamp : Z
}.

Definition unsignedInput (input : TransactionInput.t) : UnsignedInput :=
  {| u_utxoId := TransactionInput.utxoId input;
     u_utxoIdMembers := TransactionInput.utxoIdMembers input;
     u_owner := TransactionInput.owner input |}.

Definition unsignedTx (transaction : Transaction.t) : UnsignedTx :=
  {| u_id := Transaction.id transaction;
     u_inputs := map unsignedInput (Transaction.inputs transaction);
     u_outputs := Transaction.outputs transaction;
     u_timestamp := Transaction.timestamp transaction |}.

(** [JSON.stringify] on the shapes that occur in [unsignedTx].  The members
    of [unsignedTx] and of its inputs come in the order of the object
    literals of lines 78-86; a [utxoId] object and an output object, which
    the source passes on as they are, come with their own members in their
    own order. *)
Definition stringifyUtxoId (i : UtxoId.t) (members : list (JS.Member UtxoId.Key))
  : string :=
  JS.stringifyMembers
    (fun f => match f with
              | UtxoId.KtxId => JS.member "txId" (JS.stringifyString (UtxoId.txId i))
              | UtxoId.KoutputIndex =>
                  JS.member "outputIndex" (JS.stringifyNumber (UtxoId.outputIndex i))
              end) members.

Definition stringifyUnsignedInput (i : UnsignedInput) : string :=
  JS.stringifyObject
    [ JS.member "utxoId" (stringifyUtxoId (u_utxoId i) (u_utxoIdMembers i));
      JS.member "owner" (JS.stringifyString (u_owner i)) ].

Definition stringifyOutput (o : TransactionOutput.t) : string :=
  JS.stringifyMembers
    (fun f => match f with
              | TransactionOutput.Kamount =>
                  JS.member "amount" (JS.stringifyNumber (TransactionOutput.amount o))
              | TransactionOutput.Krecipient =>
                  JS.member "recipient"
                    (JS.stringifyString (TransactionOutput.recipient o))
              end) (TransactionOutput.members o).

Definition stringifyUnsignedTx (u : UnsignedTx) : string :=
  JS.stringifyObject
    [ JS.member "id" (JS.stringifyString (u_id u));
      JS.member "inputs" (JS.stringifyArray (map stringifyUnsignedInput (u_inputs u)));
      JS.member "outputs" (JS.stringifyArray (map stringifyOutput (u_outputs u)));
      JS.member "timestamp" (JS.stringifyNumber (u_timestamp u)) ].

Definition createTransactionDataForSigning (transaction : Transaction.t) : string :=
  stringifyUnsignedTx (unsignedTx transaction).

(** *** The errors the routine pushes *)

Definition utxoNotFound (i : UtxoId.t) : ValidationError :=
  createValidationError UTXO_NOT_FOUND ("UTXO not found: " +:+ utxoKey i).

Definition negativeOutput (amount : Z) : ValidationError :=
  createValidationError NEGATIVE_AMOUNT
    ("Output amount must be positive: " +:+ JS.numberToString amount).

Definition negativeUTXO (utxo : UTXO.t) : ValidationError :=
  createValidationError NEGATIVE_AMOUNT
    ("UTXO amount must be positive: " +:+ objectToString (UTXO.id utxo)).

Definition amountMismatch (totalInputValue totalOutputValue : Z) : ValidationError :=
  createValidationError AMOUNT_MISMATCH
    ("Input value " +:+ JS.numberToString totalInputValue +:+
     " is different than output value " +:+ JS.numberToString totalOutputValue).

Definition invalidSignature (i : UtxoId.t) : ValidationError :=
  createValidationError INVALID_SIGNATURE
    ("Invalid signature for UTXO: " +:+ utxoKey i).

Definition doubleSpending (key : string) : ValidationError :=
  createValidationError DOUBLE_SPENDING ("UTXO used more than once: " +:+ key).

(** *** [validateTransaction] *)

Section Validator.

(** [verify(message, signature, publicKey)] of [./utils/crypto]: any
    deterministic predicate. *)
Variable verify : string -> string -> string -> bool.

(** Lines 29-33: the loop over the outputs; its value is
    [totalOutputValue].  The addition is that of [Z], which is the addition
    of the source on the range [exactTotals]. *)
Definition checkOutputs (outputs : list TransactionOutput.t) : M Z :=
  forEach outputs (fun totalOutputValue output =>
    when (TransactionOutput.amount output <=? 0)
      (push (negativeOutput (TransactionOutput.amount output)));;
    mret (totalOutputValue + TransactionOutput.amount output)) 0.

(** Lines 34-41: the loop over the inputs that sums the amounts of the
    UTXOs that resolve; its value is [totalInputValue].  The addition is that
    of [Z], which is the addition of the source on the range
    [exactTotals]. *)
Definition checkInputAmounts (inputs : list TransactionInput.t) : M Z :=
  forEach inputs (fun totalInputValue input =>
    utxo ← getUTXO (UtxoId.txId (TransactionInput.utxoId input))
                   (UtxoId.outputIndex (TransactionInput.utxoId input));
    match utxo with
    | Some utxo =>
        when (UTXO.amount utxo <=? 0) (push (negativeUTXO utxo));;
        mret (totalInputValue + UTXO.amount utxo)
    | None => mret totalInputValue
    end) 0.

(** Lines 42-44. *)
Definition checkBalance (totalInputValue totalOutputValue : Z) : M unit :=
  when (negb (totalInputValue =? totalOutputValue))
    (push (amountMismatch totalInputValue totalOutputValue)).

(** Lines 45-55: the loop over the inputs that verifies the signatures. *)
Definition checkSignatures (inputs : list TransactionInput.t) : M unit :=
  forEach inputs (fun _ input =>
    utxo ← getUTXO (UtxoId.txId (TransactionInput.utxoId input))
                   (UtxoId.outputIndex (TransactionInput.utxoId input));
    match utxo with
    | Some utxo =>
        transaction ← readTransaction;
        let transactionData := createTransactionDataForSigning transaction in
        let isValid :=
          verify transactionData (TransactionInput.signature input)
                 (UTXO.recipient utxo) in
        when (negb isValid)
          (push (invalidSignature (TransactionInput.utxoId input)))
    | None => mret tt
    end) tt.

(** Lines 23-63: the callback of the outer [transaction.inputs.forEach].
    The three inner loops and the balance test stand inside it, between the
    existence test of [input] and its double-spending test. *)
Definition validateInput (input : TransactionInput.t) : M unit :=
  utxo ← getUTXO (UtxoId.txId (TransactionInput.utxoId input))
                 (UtxoId.outputIndex (TransactionInput.utxoId input));
  match utxo with
  | None => push (utxoNotFound (TransactionInput.utxoId input))
  | Some _ => mret tt
  end;;
  outputs ← Transaction.outputs <$> readTransaction;
  totalOutputValue ← checkOutputs outputs;
  inputs ← Transaction.inputs <$> readTransaction;
  totalInputValue ← checkInputAmounts inputs;
  checkBalance totalInputValue totalOutputValue;;
  inputs ← Transaction.inputs <$> readTransaction;
  checkSignatures inputs;;
  let key := utxoKey (TransactionInput.utxoId input) in
  seen ← has key;
  when seen (push (doubleSpending key));;
  add key.

(** Lines 19-69. *)
Definition validateTransaction : M ValidationResult :=
  newErrors;;
  newSeenUTXOs;;
  inputs ← Transaction.inputs <$> readTransaction;
  forEach inputs (fun _ input => validateInput input) tt;;
  errors ← readErrors;
  mret {| valid := (length errors =? 0)%nat; errors := errors |}.

(** A call [new TransactionValidator(pool).validateTransaction(tx)]: the
    store at entry, and the verdict the call returns. *)
Definition enter (pool : UTXOPoolManager) (tx : Transaction.t) : Store :=
  {| utxoPool := pool; transaction := tx; errorsArray := []; seenUTXOs := ∅ |}.

Definition verdict (pool : UTXOPoolManager) (tx : Transaction.t) : ValidationResult :=
  fst (validateTransaction (enter pool tx)).

End Validator.

(** ** What a run pushes: the functional reading of the loops *)

Definition sumZ (l : list Z) : Z := foldr Z.add 0 l.

(** The pool record an input refers to, if any. *)
Definition resolve (pool : UTXOPoolManager) (input : TransactionInput.t) : option UTXO.t :=
  pool !! (UtxoId.txId (TransactionInput.utxoId input),
           UtxoId.outputIndex (TransactionInput.utxoId input)).

(** The sum of all output amounts, whatever their sign. *)
Definition totalOutput (outputs : list TransactionOutput.t) : Z :=
  sumZ (map TransactionOutput.amount outputs).

(** The sum of the amounts of the UTXOs that resolve. *)
Definition totalInput (pool : UTXOPoolManager) (inputs : list TransactionInput.t) : Z :=
  sumZ (map UTXO.amount (omap (resolve pool) inputs)).

Definition outputErrors (outputs : list TransactionOutput.t) : list ValidationError :=
  flat_map (fun o => if TransactionOutput.amount o <=? 0
                     then [negativeOutput (TransactionOutput.amount o)] else [])
           outputs.

Definition utxoAmountErrors (pool : UTXOPoolManager) (inputs : list TransactionInput.t)
  : list ValidationError :=
  flat_map (fun u => if UTXO.amount u <=? 0 then [negativeUTXO u] else [])
           (omap (resolve pool) inputs).

Definition balanceErrors (totalInputValue totalOutputValue : Z) : list ValidationError :=
  if totalInputValue =? totalOutputValue then []
  else [amountMismatch totalInputValue totalOutputValue].

Definition existenceErrors (pool : UTXOPoolManager) (input : TransactionInput.t)
  : list ValidationError :=
  match resolve pool input with
  | None => [utxoNotFound (TransactionInput.utxoId input)]
  | Some _ => []
  end.

Definition doubleSpendErrors (seen : gset string) (input : TransactionInput.t)
  : list ValidationError :=
  if bool_decide (utxoKey (TransactionInput.utxoId input) ∈ seen)
  then [doubleSpending (utxoKey (TransactionInput.utxoId input))] else [].

(** The store after [es] has been pushed, one error after the other. *)
Definition pushed (s : Store) (es : list ValidationError) : Store :=
  {| utxoPool := utxoPool s; transaction := transaction s;
     errorsArray := errorsArray s ++ es; seenUTXOs := seenUTXOs s |}.

Section Reading.

Variable verify : string -> string -> string -> bool.

(** Whether the signature of [input] fails against the recipient [u]. *)
Definition signatureFails (tx : Transaction.t) (input : TransactionInput.t)
           (u : UTXO.t) : bool :=
  negb (verify (createTransactionDataForSigning tx)
               (TransactionInput.signature input) (UTXO.recipient u)).

Definition signatureErrors (pool : UTXOPoolManager) (tx : Transaction.t)
           (inputs : list TransactionInput.t) : list ValidationError :=
  flat_map (fun input =>
              match resolve pool input with
              | Some u => if signatureFails tx input u
                          then [invalidSignature (TransactionInput.utxoId input)]
                          else []
              | None => []
              end) inputs.

(** The errors of the checks that look at the whole transaction. *)
Definition wholeErrors (pool : UTXOPoolManager) (tx : Transaction.t)
  : list ValidationError :=
  outputErrors (Transaction.outputs tx)
  ++ utxoAmountErrors pool (Transaction.inputs tx)
  ++ balanceErrors (totalInput pool (Transaction.inputs tx))
                   (totalOutput (Transaction.outputs tx))
  ++ signatureErrors pool tx (Transaction.inputs tx).

(** The errors of one pass of the outer callback. *)
Definition inputErrors (pool : UTXOPoolManager) (tx : Transaction.t)
           (seen : gset string) (input : TransactionInput.t) : list ValidationError :=
  existenceErrors pool input ++ wholeErrors pool tx ++ doubleSpendErrors seen input.

Fixpoint loopErrors (pool : UTXOPoolManager) (tx : Transaction.t)
         (seen : gset string) (inputs : list TransactionInput.t)
  : list ValidationError :=
  match inputs with
  | [] => []
  | input :: rest =>
      inputErrors pool tx seen input
      ++ loopErrors pool tx ({[ utxoKey (TransactionInput.utxoId input) ]} ∪ seen) rest
  end.

Fixpoint loopSeen (seen : gset string) (inputs : list TransactionInput.t) : gset string :=
  match inputs with
  | [] => seen
  | input :: rest =>
      loopSeen ({[ utxoKey (TransactionInput.utxoId input) ]} ∪ seen) rest
  end.

End Reading.

(** Counting the errors of a list: by kind, and by value. *)
Definition countKind (k : VALIDATION_ERRORS) (es : list ValidationError) : nat :=
  length (filter (fun e => kind e = k) es).

Definition countError (e : ValidationError) (es : list ValidationError) : nat :=
  length (filter (fun x => x = e) es).

(** How many inputs refer to the identifier [i]. *)
Definition occurrences (i : UtxoId.t) (inputs : list TransactionInput.t) : nat :=
  length (filter (fun input => TransactionInput.utxoId input = i) inputs).

(** ** Definitions used by the proofs *)

(** The store after one or more passes of the outer callback. *)
Definition after (s : Store) (es : list ValidationError) (seen : gset string) : Store :=
  {| utxoPool := utxoPool s; transaction := transaction s;
     errorsArray := errorsArray s ++ es; seenUTXOs := seen |}.

(** The identifiers of [ids] that already occur before them: every occurrence
    but the first, in order; [earlier] holds what came before [ids]. *)
Fixpoint repeats (earlier ids : list UtxoId.t) : list UtxoId.t :=
  match ids with
  | [] => []
  | i :: rest =>
      (if bool_decide (i ∈ earlier) then [i] else []) ++ repeats (i :: earlier) rest
  end.

(** A string in which no colon occurs. *)
Definition colonFree (s : string) : Prop :=
  forall a b, s <> a +:+ String ":" b.








(** Whether the signature loop reports [input]: its UTXO resolves and the
    signature fails against the recipient the pool records. *)
Definition signatureRejected (verify : string -> string -> string -> bool)
           (pool : UTXOPoolManager) (tx : Transaction.t)
           (input : TransactionInput.t) : bool :=
  match resolve pool input with
  | Some u => signatureFails verify tx input u
  | None => false
  end.

(** The errors of the outer loop, pass by pass, with the identifiers of the
    inputs already passed in [earlier]. *)
Fixpoint passes (verify : string -> string -> string -> bool)
         (pool : UTXOPoolManager) (tx : Transaction.t)
         (earlier : list UtxoId.t) (inputs : list TransactionInput.t)
  : list ValidationError :=
  match inputs with
  | [] => []
  | input :: rest =>
      existenceErrors pool input
      ++ wholeErrors verify pool tx
      ++ (if bool_decide (TransactionInput.utxoId input ∈ earlier)
          then [doubleSpending (utxoKey (TransactionInput.utxoId input))] else [])
      ++ passes verify pool tx (TransactionInput.utxoId input :: earlier) rest
  end.







(** The range on which the totals of the routine are exact.  Lines 33 and 40
    add doubles.  On integer amounts whose absolute values sum to at most
    2^53 every partial sum is an integer of magnitude at most 2^53, which a
    double holds exactly, so that the additions of the source are the
    additions of [Z], the test of line 42 compares the exact totals and the
    totals are printed as decimal numerals. *)
Definition exactTotals (pool : UTXOPoolManager) (tx : Transaction.t) : Prop :=
  sumZ (map Z.abs (map TransactionOutput.amount (Transaction.outputs tx))) <= 2 ^ 53
  /\ sumZ (map Z.abs (map UTXO.amount (omap (resolve pool) (Transaction.inputs tx))))
     <= 2 ^ 53.

(** Output indices that a template literal prints as decimal numerals. *)
Definition printableIndices (tx : Transaction.t) : Prop :=
  Forall (fun input =>
            Z.abs (UtxoId.outputIndex (TransactionInput.utxoId input)) < 10 ^ 21)
         (Transaction.inputs tx).

(** ** Sample pool and transactions *)

Module Fixture.

(** A stand-in for [verify]: a signature is accepted when it spells the
    key it is checked against. *)
Definition toyVerify (_ signature key : string) : bool := String.eqb signature key.

Definition idA : UtxoId.t := UtxoId.mk "tx1" 0.
Definition idB : UtxoId.t := UtxoId.mk "tx2" 0.
Definition idGone : UtxoId.t := UtxoId.mk "tx9" 3.

Definition utxoA : UTXO.t := UTXO.mk idA 100 "K".
Definition utxoB : UTXO.t := UTXO.mk idB 50 "L".

Definition pool : UTXOPoolManager :=
  <[ ("tx2"%string, 0) := utxoB ]> {[ ("tx1"%string, 0) := utxoA ]}.

(** The members of an identifier object written [{txId, outputIndex}] and
    of an output object written [{amount, recipient}]. *)
Definition idMembers : list (JS.Member UtxoId.Key) :=
  [JS.Field UtxoId.KtxId; JS.Field UtxoId.KoutputIndex].
Definition outputMembers : list (JS.Member TransactionOutput.Key) :=
  [JS.Field TransactionOutput.Kamount; JS.Field TransactionOutput.Krecipient].

Definition inputA : TransactionInput.t := TransactionInput.mk idA idMembers "K" "K".
Definition inputB : TransactionInput.t := TransactionInput.mk idB idMembers "L" "L".
Definition inputBforged : TransactionInput.t :=
  TransactionInput.mk idB idMembers "L" "garbage".
Definition inputGone : TransactionInput.t := TransactionInput.mk idGone idMembers "K" "K".

Definition pay (amount : Z) : TransactionOutput.t :=
  TransactionOutput.mk amount "B" outputMembers.

(** One input of 100 signed by its owner, one output of 100. *)
Definition txGood : Transaction.t := Transaction.mk "t1" [inputA] [pay 100] 1700000000.

(** Two inputs worth 150, one output of 140. *)
Definition txShort : Transaction.t :=
  Transaction.mk "t2" [inputA; inputB] [pay 140] 1700000000.

(** Two inputs worth 150, balanced, the second with a forged signature. *)
Definition txForged : Transaction.t :=
  Transaction.mk "t3" [inputA; inputBforged] [pay 150] 1700000000.

(** One input of 100, outputs of 105 and -5. *)
Definition txNegativeOutput : Transaction.t :=
  Transaction.mk "t4" [inputA] [pay 105; pay (-5)] 1700000000.

(** No input, one output of -5. *)
Definition txNoInputNegative : Transaction.t :=
  Transaction.mk "t5" [] [pay (-5)] 1700000000.

(** No input, one output of 10. *)
Definition txNoInput : Transaction.t := Transaction.mk "t6" [] [pay 10] 1700000000.

(** Two inputs worth 150, outputs of 155 and -5. *)
Definition txTwoInputsNegative : Transaction.t :=
  Transaction.mk "t7" [inputA; inputB] [pay 155; pay (-5)] 1700000000.

(** The same absent identifier three times, no output. *)
Definition txGoneThrice : Transaction.t :=
  Transaction.mk "t8" [inputGone; inputGone; inputGone] [] 1700000000.

(** The input of [txGood] three times, one output of 300. *)
Definition txThrice : Transaction.t :=
  Transaction.mk "t9" [inputA; inputA; inputA] [pay 300] 1700000000.

End Fixture.

Module MoreFixture.

(** [Fixture.pool] with one more unspent output. *)
Definition widerPool : UTXOPoolManager :=
  <[ ("tx7"%string, 1) := UTXO.mk (UtxoId.mk "tx7" 1) 7 "M" ]> Fixture.pool.

End MoreFixture.

(** ** Store lemmas *)

Lemma pushed_nil s : pushed s [] = s.
Proof. destruct s; unfold pushed; simpl. by rewrite app_nil_r. Qed.

Lemma pushed_app s es1 es2 : pushed (pushed s es1) es2 = pushed s (es1 ++ es2).
Proof. unfold pushed; simpl. by rewrite app_assoc. Qed.

Lemma push_run e s : push e s = (tt, pushed s [e]).
Proof. reflexivity. Qed.

Lemma when_run b e s : when b (push e) s = (tt, pushed s (if b then [e] else [])).
Proof. destruct b; simpl; [done|]. by rewrite pushed_nil. Qed.

Lemma bind_run {A B} (m : M A) (f : A -> M B) s :
  (m ≫= f) s = f (m s).1 (m s).2.
Proof. unfold mbind, M_bind. by destruct (m s). Qed.

Lemma fmap_run {A B} (g : A -> B) (m : M A) s :
  (g <$> m) s = (g (m s).1, (m s).2).
Proof. unfold fmap, M_fmap. by destruct (m s). Qed.

Lemma getUTXO_resolve input s :
  getUTXO (UtxoId.txId (TransactionInput.utxoId input))
          (UtxoId.outputIndex (TransactionInput.utxoId input)) s
  = (resolve (utxoPool s) input, s).
Proof. reflexivity. Qed.

(** ** The loops, run *)

Lemma checkOutputs_loop outputs acc s :
  forEach outputs (fun totalOutputValue output =>
      when (TransactionOutput.amount output <=? 0)
        (push (negativeOutput (TransactionOutput.amount output)));;
      mret (totalOutputValue + TransactionOutput.amount output)) acc s
  = (acc + totalOutput outputs, pushed s (outputErrors outputs)).
Proof.
  revert acc s. induction outputs as [|o outputs IH]; intros acc s; simpl.
  - unfold mret, M_ret, totalOutput; simpl. by rewrite Z.add_0_r, pushed_nil.
  - rewrite !bind_run, when_run; simpl. rewrite IH, pushed_app.
    unfold totalOutput; simpl. f_equal. lia.
Qed.

Lemma checkOutputs_run outputs s :
  checkOutputs outputs s = (totalOutput outputs, pushed s (outputErrors outputs)).
Proof. unfold checkOutputs. by rewrite checkOutputs_loop. Qed.

Lemma checkInputAmounts_loop inputs acc s :
  forEach inputs (fun totalInputValue input =>
      utxo ← getUTXO (UtxoId.txId (TransactionInput.utxoId input))
                     (UtxoId.outputIndex (TransactionInput.utxoId input));
      match utxo with
      | Some utxo =>
          when (UTXO.amount utxo <=? 0) (push (negativeUTXO utxo));;
          mret (totalInputValue + UTXO.amount utxo)
      | None => mret totalInputValue
      end) acc s
  = (acc + totalInput (utxoPool s) inputs,
     pushed s (utxoAmountErrors (utxoPool s) inputs)).
Proof.
  revert acc s. induction inputs as [|i inputs IH]; intros acc s; simpl.
  - unfold mret, M_ret, totalInput; simpl. by rewrite Z.add_0_r, pushed_nil.
  - rewrite bind_run, bind_run, getUTXO_resolve; simpl.
    unfold totalInput, utxoAmountErrors; simpl.
    destruct (resolve (utxoPool s) i) as [u|] eqn:Hu; simpl.
    + rewrite bind_run, when_run; simpl. rewrite IH, pushed_app; simpl.
      unfold totalInput, utxoAmountErrors. by rewrite <- Z.add_assoc.
    + by rewrite IH.
Qed.

Lemma checkInputAmounts_run inputs s :
  checkInputAmounts inputs s
  = (totalInput (utxoPool s) inputs, pushed s (utxoAmountErrors (utxoPool s) inputs)).
Proof. unfold checkInputAmounts. by rewrite checkInputAmounts_loop. Qed.

Lemma checkBalance_run tin tout s :
  checkBalance tin tout s = (tt, pushed s (balanceErrors tin tout)).
Proof.
  unfold checkBalance, balanceErrors. rewrite when_run.
  by destruct (tin =? tout).
Qed.

Lemma checkSignatures_run verify inputs s :
  checkSignatures verify inputs s
  = (tt, pushed s (signatureErrors verify (utxoPool s) (transaction s) inputs)).
Proof.
  unfold checkSignatures. revert s.
  induction inputs as [|i inputs IH]; intros s; simpl.
  - by rewrite pushed_nil.
  - rewrite bind_run, bind_run, getUTXO_resolve; simpl.
    destruct (resolve (utxoPool s) i) as [u|] eqn:Hu; simpl.
    + rewrite bind_run; simpl. rewrite when_run; simpl.
      rewrite IH, pushed_app; simpl. unfold signatureFails. done.
    + by rewrite IH.
Qed.

Lemma validateInput_run verify input s :
  validateInput verify input s
  = (tt, after s (inputErrors verify (utxoPool s) (transaction s) (seenUTXOs s) input)
               ({[ utxoKey (TransactionInput.utxoId input) ]} ∪ seenUTXOs s)).
Proof.
  unfold validateInput.
  rewrite bind_run, getUTXO_resolve; simpl.
  rewrite bind_run.
  assert (Hex : match resolve (utxoPool s) input with
                | Some _ => mret ()
                | None => push (utxoNotFound (TransactionInput.utxoId input))
                end s = (tt, pushed s (existenceErrors (utxoPool s) input))).
  { unfold existenceErrors. destruct (resolve (utxoPool s) input); simpl; [|done].
    by rewrite pushed_nil. }
  rewrite Hex; simpl.
  rewrite bind_run, fmap_run; simpl.
  rewrite bind_run, checkOutputs_run; simpl.
  rewrite bind_run, fmap_run; simpl.
  rewrite bind_run, checkInputAmounts_run; simpl.
  rewrite bind_run, checkBalance_run; simpl.
  rewrite bind_run, fmap_run; simpl.
  rewrite bind_run, checkSignatures_run; simpl.
  rewrite bind_run; simpl. rewrite bind_run, when_run; simpl.
  unfold add, after, inputErrors, wholeErrors, doubleSpendErrors; simpl.
  rewrite <- !app_assoc. done.
Qed.

Lemma outer_loop_run verify inputs s :
  forEach inputs (fun _ input => validateInput verify input) tt s
  = (tt, after s (loopErrors verify (utxoPool s) (transaction s) (seenUTXOs s) inputs)
               (loopSeen (seenUTXOs s) inputs)).
Proof.
  revert s. induction inputs as [|i inputs IH]; intros s; simpl.
  - unfold mret, M_ret, after. rewrite app_nil_r. by destruct s.
  - rewrite bind_run, validateInput_run; simpl. rewrite IH; simpl.
    unfold after; simpl. by rewrite <- app_assoc.
Qed.

(** The whole routine, run from any store: the verdict is read off
    [loopErrors], and the pool and the transaction are as they were. *)
Lemma validateTransaction_run verify s :
  let es := loopErrors verify (utxoPool s) (transaction s) ∅
                       (Transaction.inputs (transaction s)) in
  validateTransaction verify s
  = ({| valid := (length es =? 0)%nat; errors := es |},
     {| utxoPool := utxoPool s; transaction := transaction s;
        errorsArray := es;
        seenUTXOs := loopSeen ∅ (Transaction.inputs (transaction s)) |}).
Proof.
  intros es. unfold validateTransaction.
  rewrite bind_run; simpl. rewrite bind_run; simpl.
  rewrite bind_run, fmap_run; simpl.
  rewrite bind_run, outer_loop_run; simpl.
  rewrite bind_run; simpl. done.
Qed.

Lemma verdict_errors verify pool tx :
  errors (verdict verify pool tx)
  = loopErrors verify pool tx ∅ (Transaction.inputs tx).
Proof. unfold verdict. by rewrite validateTransaction_run. Qed.

Lemma verdict_valid verify pool tx :
  valid (verdict verify pool tx)
  = (length (errors (verdict verify pool tx)) =? 0)%nat.
Proof. unfold verdict. by rewrite validateTransaction_run. Qed.

(** ** Numerals and keys *)

Lemma colonFree_cons c s : c <> ":"%char -> colonFree s -> colonFree (String c s).
Proof.
  intros Hc Hs [|c' a] b; simpl; intros [= E1 E2]; [done|].
  by apply (Hs a b).
Qed.

Lemma colonFree_empty : colonFree EmptyString.
Proof. intros [|c a] b; simpl; discriminate. Qed.

Lemma string_of_uint_colonFree d : colonFree (NilEmpty.string_of_uint d).
Proof.
  induction d; simpl;
    first [ apply colonFree_empty | apply colonFree_cons; [discriminate | assumption] ].
Qed.

Lemma numberToString_colonFree n : colonFree (JS.numberToString n).
Proof.
  assert (Hu : forall d, colonFree (NilZero.string_of_uint d)).
  { intros d. destruct d; try apply (string_of_uint_colonFree (_ _)).
    apply colonFree_cons; [discriminate | apply colonFree_empty]. }
  unfold JS.numberToString. destruct (Z.to_int n); simpl; [apply Hu|].
  apply colonFree_cons; [discriminate | apply Hu].
Qed.

Lemma numberToString_inj n m : JS.numberToString n = JS.numberToString m -> n = m.
Proof.
  assert (Hnn : forall k, Z.to_int k <> Pos Nil /\ Z.to_int k <> Neg Nil).
  { intros [|p|p]; simpl; split; try discriminate;
      intros [= E]; by apply (DecimalPos.Unsigned.to_uint_nonnil p). }
  unfold JS.numberToString. intros E.
  apply DecimalZ.to_int_inj.
  destruct (Hnn n) as [Hn1 Hn2], (Hnn m) as [Hm1 Hm2].
  pose proof (NilZero.isi _ Hn1 Hn2) as In.
  pose proof (NilZero.isi _ Hm1 Hm2) as Im.
  rewrite E in In. congruence.
Qed.

(** The text after the last colon of a key is the index, the text before it
    the transaction id. *)
Lemma split_at_colon a b x y :
  colonFree x -> colonFree y ->
  a +:+ String ":" x = b +:+ String ":" y -> a = b /\ x = y.
Proof.
  intros Hx Hy. revert b. induction a as [|c a IH]; intros [|c' b]; simpl.
  - by intros [= ->].
  - intros [= _ E]. by destruct (Hx b y).
  - intros [= _ E]. by destruct (Hy a x).
  - intros [= -> E]. destruct (IH _ E) as [-> ->]. done.
Qed.

Lemma utxoKey_inj i j : utxoKey i = utxoKey j -> i = j.
Proof.
  destruct i as [t n], j as [t' n']; unfold utxoKey; simpl. intros E.
  apply split_at_colon in E as [-> E]; try apply numberToString_colonFree.
  by apply numberToString_inj in E as ->.
Qed.

Lemma append_inj_l p a b : p +:+ a = p +:+ b -> a = b.
Proof. induction p as [|c p IH]; simpl; [done|]. intros [= E]. by apply IH. Qed.

Lemma utxoNotFound_inj i j : utxoNotFound i = utxoNotFound j -> i = j.
Proof. intros [= E]. by apply utxoKey_inj, (append_inj_l _ _ _ E). Qed.

Lemma invalidSignature_inj i j : invalidSignature i = invalidSignature j -> i = j.
Proof. intros [= E]. by apply utxoKey_inj, (append_inj_l _ _ _ E). Qed.

Lemma doubleSpending_inj k k' : doubleSpending k = doubleSpending k' -> k = k'.
Proof. intros [= E]. by apply (append_inj_l _ _ _ E). Qed.

Lemma negativeOutput_inj a b : negativeOutput a = negativeOutput b -> a = b.
Proof. intros [= E]. by apply numberToString_inj, (append_inj_l _ _ _ E). Qed.

(** ** Counting lemmas *)

Lemma countKind_app k es1 es2 :
  countKind k (es1 ++ es2) = (countKind k es1 + countKind k es2)%nat.
Proof. unfold countKind. by rewrite filter_app, length_app. Qed.

Lemma countError_app e es1 es2 :
  countError e (es1 ++ es2) = (countError e es1 + countError e es2)%nat.
Proof. unfold countError. by rewrite filter_app, length_app. Qed.

Lemma countKind_other k k' es :
  Forall (fun e => kind e = k') es -> k <> k' -> countKind k es = 0%nat.
Proof.
  intros H Hne. unfold countKind. induction H as [|e es He _ IH]; [done|].
  rewrite filter_cons_False; [done|]. congruence.
Qed.

Lemma countKind_same k es :
  Forall (fun e => kind e = k) es -> countKind k es = length es.
Proof.
  intros H. unfold countKind. induction H as [|e es He _ IH]; [done|].
  rewrite filter_cons_True by done. simpl. by rewrite IH.
Qed.

Lemma countError_other e k' es :
  Forall (fun x => kind x = k') es -> kind e <> k' -> countError e es = 0%nat.
Proof.
  intros H Hne. unfold countError. induction H as [|x es Hx _ IH]; [done|].
  rewrite filter_cons_False; [done|]. congruence.
Qed.

Lemma outputErrors_kind outputs :
  Forall (fun e => kind e = NEGATIVE_AMOUNT) (outputErrors outputs).
Proof.
  induction outputs as [|o outputs IH]; simpl; [constructor|].
  apply Forall_app; split; [|done]. destruct (_ <=? _); repeat constructor.
Qed.

Lemma utxoAmountErrors_kind pool inputs :
  Forall (fun e => kind e = NEGATIVE_AMOUNT) (utxoAmountErrors pool inputs).
Proof.
  unfold utxoAmountErrors.
  induction (omap (resolve pool) inputs) as [|u us IH]; simpl; [constructor|].
  apply Forall_app; split; [|done]. destruct (_ <=? _); repeat constructor.
Qed.

Lemma balanceErrors_kind tin tout :
  Forall (fun e => kind e = AMOUNT_MISMATCH) (balanceErrors tin tout).
Proof. unfold balanceErrors. destruct (_ =? _); repeat constructor. Qed.

Lemma signatureErrors_kind verify pool tx inputs :
  Forall (fun e => kind e = INVALID_SIGNATURE) (signatureErrors verify pool tx inputs).
Proof.
  induction inputs as [|i inputs IH]; simpl; [constructor|].
  apply Forall_app; split; [|done].
  destruct (resolve pool i); [destruct (signatureFails _ _ _ _)|]; repeat constructor.
Qed.

Lemma existenceErrors_kind pool input :
  Forall (fun e => kind e = UTXO_NOT_FOUND) (existenceErrors pool input).
Proof. unfold existenceErrors. destruct (resolve pool input); repeat constructor. Qed.

Lemma doubleSpendErrors_kind seen input :
  Forall (fun e => kind e = DOUBLE_SPENDING) (doubleSpendErrors seen input).
Proof. unfold doubleSpendErrors. destruct (bool_decide _); repeat constructor. Qed.

(** No check on the whole transaction pushes a [DOUBLE_SPENDING] or a
    [UTXO_NOT_FOUND]. *)
Lemma wholeErrors_kinds verify pool tx :
  Forall (fun e => kind e = NEGATIVE_AMOUNT \/ kind e = AMOUNT_MISMATCH
                   \/ kind e = INVALID_SIGNATURE)
         (wholeErrors verify pool tx).
Proof.
  unfold wholeErrors. rewrite !Forall_app. repeat split.
  - eapply Forall_impl; [apply outputErrors_kind|]. simpl; tauto.
  - eapply Forall_impl; [apply utxoAmountErrors_kind|]. simpl; tauto.
  - eapply Forall_impl; [apply balanceErrors_kind|]. simpl; tauto.
  - eapply Forall_impl; [apply signatureErrors_kind|]. simpl; tauto.
Qed.

Lemma countError_whole_other verify pool tx e :
  kind e = DOUBLE_SPENDING \/ kind e = UTXO_NOT_FOUND ->
  countError e (wholeErrors verify pool tx) = 0%nat.
Proof.
  intros He. unfold countError.
  induction (wholeErrors_kinds verify pool tx) as [|x es Hx _ IH]; [done|].
  rewrite filter_cons_False; [done|]. intros ->.
  destruct He as [He|He]; rewrite He in Hx; destruct Hx as [?|[?|?]]; discriminate.
Qed.

Lemma countKind_whole_mismatch verify pool tx :
  countKind AMOUNT_MISMATCH (wholeErrors verify pool tx)
  = if totalInput pool (Transaction.inputs tx) =? totalOutput (Transaction.outputs tx)
    then 0%nat else 1%nat.
Proof.
  unfold wholeErrors. rewrite !countKind_app.
  rewrite (countKind_other _ _ _ (outputErrors_kind _)) by done.
  rewrite (countKind_other _ _ _ (utxoAmountErrors_kind _ _)) by done.
  rewrite (countKind_other _ _ _ (signatureErrors_kind _ _ _ _)) by done.
  rewrite (countKind_same _ _ (balanceErrors_kind _ _)).
  unfold balanceErrors. by destruct (_ =? _).
Qed.

(** The balance test runs once in every pass of the outer loop. *)
Lemma countKind_loop_mismatch verify pool tx seen inputs :
  countKind AMOUNT_MISMATCH (loopErrors verify pool tx seen inputs)
  = (length inputs * countKind AMOUNT_MISMATCH (wholeErrors verify pool tx))%nat.
Proof.
  revert seen. induction inputs as [|i inputs IH]; intros seen; simpl; [done|].
  unfold inputErrors. rewrite !countKind_app, IH.
  rewrite (countKind_other _ _ _ (existenceErrors_kind _ _)) by done.
  rewrite (countKind_other _ _ _ (doubleSpendErrors_kind _ _)) by done.
  lia.
Qed.

(** Every error of a whole-transaction check is pushed once per input. *)
Lemma countError_loop_whole verify pool tx seen inputs e :
  kind e <> UTXO_NOT_FOUND -> kind e <> DOUBLE_SPENDING ->
  countError e (loopErrors verify pool tx seen inputs)
  = (length inputs * countError e (wholeErrors verify pool tx))%nat.
Proof.
  intros H1 H2. revert seen.
  induction inputs as [|i inputs IH]; intros seen; simpl; [done|].
  unfold inputErrors. rewrite !countError_app, IH.
  rewrite (countError_other _ _ _ (existenceErrors_kind _ _)) by done.
  rewrite (countError_other _ _ _ (doubleSpendErrors_kind _ _)) by done.
  lia.
Qed.

Lemma filter_kind_other k k' es :
  Forall (fun e => kind e = k') es -> k <> k' ->
  filter (fun e => kind e = k) es = [].
Proof.
  intros H Hne. induction H as [|e es He _ IH]; [done|].
  rewrite filter_cons_False; [done|]. congruence.
Qed.

Lemma filter_kind_same k es :
  Forall (fun e => kind e = k) es -> filter (fun e => kind e = k) es = es.
Proof.
  intros H. induction H as [|e es He _ IH]; [done|].
  rewrite filter_cons_True by done. by rewrite IH.
Qed.

Lemma filter_doubleSpending_whole verify pool tx :
  filter (fun e => kind e = DOUBLE_SPENDING) (wholeErrors verify pool tx) = [].
Proof.
  induction (wholeErrors_kinds verify pool tx) as [|x es Hx _ IH]; [done|].
  rewrite filter_cons_False; [done|]. intros E. rewrite E in Hx.
  destruct Hx as [?|[?|?]]; discriminate.
Qed.

(** The [DOUBLE_SPENDING] errors of the outer loop, in the order they are
    pushed: one for every pass whose key is already in the set. *)
Lemma filter_doubleSpending_loop verify pool tx seen inputs :
  filter (fun e => kind e = DOUBLE_SPENDING) (loopErrors verify pool tx seen inputs)
  = match inputs with
    | [] => []
    | input :: rest =>
        doubleSpendErrors seen input
        ++ filter (fun e => kind e = DOUBLE_SPENDING)
             (loopErrors verify pool tx
                ({[ utxoKey (TransactionInput.utxoId input) ]} ∪ seen) rest)
    end.
Proof.
  destruct inputs as [|i rest]; simpl; [done|].
  unfold inputErrors. rewrite !filter_app.
  rewrite (filter_kind_other _ _ _ (existenceErrors_kind _ _)) by done.
  rewrite filter_doubleSpending_whole.
  by rewrite (filter_kind_same _ _ (doubleSpendErrors_kind _ _)).
Qed.

Lemma occurrences_cons i input inputs :
  occurrences i (input :: inputs)
  = ((if bool_decide (TransactionInput.utxoId input = i) then 1 else 0)
     + occurrences i inputs)%nat.
Proof.
  unfold occurrences. case_bool_decide.
  - by rewrite filter_cons_True.
  - by rewrite filter_cons_False.
Qed.

Lemma countError_singleton e x :
  countError e [x] = if bool_decide (x = e) then 1%nat else 0%nat.
Proof.
  unfold countError. case_bool_decide.
  - by rewrite filter_cons_True.
  - by rewrite filter_cons_False.
Qed.

(** One [DOUBLE_SPENDING] for the identifier [i] per occurrence of [i] whose
    key is already in the set. *)
Lemma countError_loop_doubleSpending verify pool tx seen inputs i :
  countError (doubleSpending (utxoKey i)) (loopErrors verify pool tx seen inputs)
  = if bool_decide (utxoKey i ∈ seen) then occurrences i inputs
    else (occurrences i inputs - 1)%nat.
Proof.
  revert seen. induction inputs as [|j inputs IH]; intros seen.
  { simpl. by case_bool_decide. }
  cbn [loopErrors]. unfold inputErrors. rewrite !countError_app, IH.
  rewrite (countError_other _ _ _ (existenceErrors_kind _ _)) by done.
  rewrite countError_whole_other by (left; done).
  rewrite occurrences_cons. unfold doubleSpendErrors.
  destruct (decide (TransactionInput.utxoId j = i)) as [->|Hne].
  - rewrite (bool_decide_eq_true_2 (i = i)) by done.
    rewrite (bool_decide_eq_true_2 (utxoKey i ∈ {[utxoKey i]} ∪ seen))
      by (apply elem_of_union; left; by apply elem_of_singleton).
    case_bool_decide.
    + rewrite countError_singleton, bool_decide_eq_true_2 by done. lia.
    + simpl. unfold countError; simpl. lia.
  - rewrite (bool_decide_eq_false_2 (TransactionInput.utxoId j = i)) by done.
    assert (Hk : utxoKey (TransactionInput.utxoId j) <> utxoKey i).
    { intros E. by apply utxoKey_inj in E. }
    assert (Hc : countError (doubleSpending (utxoKey i))
                   (if bool_decide (utxoKey (TransactionInput.utxoId j) ∈ seen)
                    then [doubleSpending (utxoKey (TransactionInput.utxoId j))]
                    else []) = 0%nat).
    { case_bool_decide; [|done]. rewrite countError_singleton.
      rewrite bool_decide_eq_false_2; [done|].
      intros E. by apply doubleSpending_inj in E. }
    rewrite Hc.
    destruct (decide (utxoKey i ∈ seen)) as [Hin|Hnin].
    + rewrite (bool_decide_eq_true_2 _ Hin).
      rewrite bool_decide_eq_true_2; [lia|].
      apply elem_of_union; by right.
    + rewrite (bool_decide_eq_false_2 _ Hnin).
      rewrite bool_decide_eq_false_2; [lia|].
      rewrite elem_of_union, elem_of_singleton. intros [E|E]; congruence.
Qed.

(** One [UTXO_NOT_FOUND] for the identifier [i] per occurrence of [i], when
    [i] is not in the pool; none when it is. *)
Lemma countError_loop_notFound verify pool tx seen inputs i :
  countError (utxoNotFound i) (loopErrors verify pool tx seen inputs)
  = match pool !! (UtxoId.txId i, UtxoId.outputIndex i) with
    | None => occurrences i inputs
    | Some _ => 0%nat
    end.
Proof.
  revert seen. induction inputs as [|j inputs IH]; intros seen.
  { simpl. by destruct (pool !! _). }
  cbn [loopErrors]. unfold inputErrors. rewrite !countError_app, IH.
  rewrite (countError_other _ _ _ (doubleSpendErrors_kind _ _)) by done.
  rewrite countError_whole_other by (right; done).
  rewrite occurrences_cons. unfold existenceErrors, resolve.
  destruct (decide (TransactionInput.utxoId j = i)) as [->|Hne].
  - rewrite (bool_decide_eq_true_2 (i = i)) by done.
    destruct (pool !! _); [done|].
    rewrite countError_singleton, bool_decide_eq_true_2 by done. lia.
  - rewrite (bool_decide_eq_false_2 (TransactionInput.utxoId j = i)) by done.
    assert (Hc : countError (utxoNotFound i)
                   match pool !! (UtxoId.txId (TransactionInput.utxoId j),
                                  UtxoId.outputIndex (TransactionInput.utxoId j)) with
                   | Some _ => []
                   | None => [utxoNotFound (TransactionInput.utxoId j)]
                   end = 0%nat).
    { destruct (pool !! (UtxoId.txId (TransactionInput.utxoId j), _)); [done|].
      rewrite countError_singleton, bool_decide_eq_false_2; [done|].
      intros E. by apply utxoNotFound_inj in E. }
    rewrite Hc. by destruct (pool !! _).
Qed.

(** ** When nothing is pushed *)

Lemma outputErrors_nil outputs :
  (forall o, o ∈ outputs -> 0 < TransactionOutput.amount o) ->
  outputErrors outputs = [].
Proof.
  induction outputs as [|o outputs IH]; intros H; simpl; [done|].
  rewrite IH by (intros; apply H; by right).
  assert (0 < TransactionOutput.amount o) by (apply H; by left).
  destruct (Z.leb_spec (TransactionOutput.amount o) 0); [lia|done].
Qed.

Lemma utxoAmountErrors_nil pool inputs :
  (forall input u, input ∈ inputs -> resolve pool input = Some u -> 0 < UTXO.amount u) ->
  utxoAmountErrors pool inputs = [].
Proof.
  intros H. unfold utxoAmountErrors.
  assert (Hus : forall u, u ∈ omap (resolve pool) inputs -> 0 < UTXO.amount u).
  { intros u Hu. apply list_elem_of_omap in Hu as (input & Hin & Hr). eauto. }
  induction (omap (resolve pool) inputs) as [|u us IH]; simpl; [done|].
  rewrite IH by (intros; apply Hus; by right).
  assert (0 < UTXO.amount u) by (apply Hus; by left).
  destruct (Z.leb_spec (UTXO.amount u) 0); [lia|done].
Qed.

Lemma signatureErrors_nil verify pool tx inputs :
  (forall input u, input ∈ inputs -> resolve pool input = Some u ->
     verify (createTransactionDataForSigning tx)
            (TransactionInput.signature input) (UTXO.recipient u) = true) ->
  signatureErrors verify pool tx inputs = [].
Proof.
  induction inputs as [|i inputs IH]; intros H; simpl; [done|].
  rewrite IH by (intros ????; eapply H; [by right|done]).
  destruct (resolve pool i) as [u|] eqn:Hu; [|done].
  unfold signatureFails. rewrite (H i u); [done|by left|done].
Qed.

Lemma loopErrors_nil verify pool tx seen inputs :
  wholeErrors verify pool tx = [] ->
  (forall input, input ∈ inputs -> is_Some (resolve pool input)) ->
  NoDup (map TransactionInput.utxoId inputs) ->
  (forall input, input ∈ inputs -> utxoKey (TransactionInput.utxoId input) ∉ seen) ->
  loopErrors verify pool tx seen inputs = [].
Proof.
  intros Hw. revert seen.
  induction inputs as [|i inputs IH]; intros seen Hres Hnd Hseen; simpl; [done|].
  apply NoDup_cons in Hnd as [Hi Hnd].
  rewrite IH; [|intros; apply Hres; by right|done|].
  - unfold inputErrors, existenceErrors, doubleSpendErrors. rewrite Hw.
    destruct (Hres i) as [u ->]; [by left|].
    rewrite bool_decide_eq_false_2; [done|]. apply Hseen; by left.
  - intros j Hj. rewrite elem_of_union, elem_of_singleton. intros [E|E].
    + apply utxoKey_inj in E. apply Hi. rewrite <- E.
      apply list_elem_of_In, in_map, list_elem_of_In, Hj.
    + revert E. apply Hseen. by right.
Qed.

(** X2: with no input the outer loop has no pass and nothing is checked: the
    verdict is valid with no error, whatever the outputs and the pool. *)
Lemma verdict_no_inputs verify pool tx :
  Transaction.inputs tx = [] ->
  verdict verify pool tx = {| valid := true; errors := [] |}.
Proof.
  intros H. unfold verdict. rewrite validateTransaction_run; simpl. by rewrite H.
Qed.

(** ** Inputs whose identifier is not in the pool *)

Lemma omap_resolve_absent pool i (inputs : list TransactionInput.t) :
  pool !! (UtxoId.txId i, UtxoId.outputIndex i) = None ->
  omap (resolve pool) (filter (fun input => TransactionInput.utxoId input <> i) inputs)
  = omap (resolve pool) inputs.
Proof.
  intros Hi. induction inputs as [|j inputs IH]; [done|].
  destruct (decide (TransactionInput.utxoId j = i)) as [E|E].
  - assert (Hj : resolve pool j = None) by (unfold resolve; by rewrite E).
    rewrite filter_cons_False by (intros ?; done). simpl. rewrite Hj. exact IH.
  - rewrite filter_cons_True by done. simpl.
    destruct (resolve pool j); [f_equal|]; exact IH.
Qed.

Lemma signatureErrors_absent verify pool tx i (inputs : list TransactionInput.t) :
  pool !! (UtxoId.txId i, UtxoId.outputIndex i) = None ->
  signatureErrors verify pool tx
    (filter (fun input => TransactionInput.utxoId input <> i) inputs)
  = signatureErrors verify pool tx inputs.
Proof.
  intros Hi. induction inputs as [|j inputs IH]; [done|].
  destruct (decide (TransactionInput.utxoId j = i)) as [E|E].
  - assert (Hj : resolve pool j = None) by (unfold resolve; by rewrite E).
    rewrite filter_cons_False by (intros ?; done). simpl. rewrite Hj. exact IH.
  - rewrite filter_cons_True by done. simpl. by rewrite IH.
Qed.

(** ** The balance check (C1) *)

(** The two totals of a pass are the sum of all output amounts and the sum of
    the amounts of the UTXOs that resolve, and the balance test pushes one
    [AMOUNT_MISMATCH] per pass of the outer loop: as many as the transaction
    has inputs when the totals differ. *)
Lemma amount_mismatch_count verify pool tx :
  countKind AMOUNT_MISMATCH (errors (verdict verify pool tx))
  = if totalInput pool (Transaction.inputs tx) =? totalOutput (Transaction.outputs tx)
    then 0%nat else length (Transaction.inputs tx).
Proof.
  rewrite verdict_errors, countKind_loop_mismatch, countKind_whole_mismatch.
  destruct (_ =? _); lia.
Qed.

(** C1, on the code: [Fixture.txShort] has two inputs that resolve to 100 and
    50 and one output of 140.  The totals differ, and the error list holds
    two [AMOUNT_MISMATCH] errors, not one; [Fixture.txNoInput] has no input
    and an output of 10, the totals differ, and it holds none. *)
Theorem amount_mismatch_once_per_input :
  totalInput Fixture.pool (Transaction.inputs Fixture.txShort) = 150
  /\ totalOutput (Transaction.outputs Fixture.txShort) = 140
  /\ errors (verdict Fixture.toyVerify Fixture.pool Fixture.txShort)
     = [amountMismatch 150 140; amountMismatch 150 140]
  /\ countKind AMOUNT_MISMATCH
       (errors (verdict Fixture.toyVerify Fixture.pool Fixture.txShort)) = 2%nat
  /\ totalInput Fixture.pool (Transaction.inputs Fixture.txNoInput) = 0
  /\ totalOutput (Transaction.outputs Fixture.txNoInput) = 10
  /\ countKind AMOUNT_MISMATCH
       (errors (verdict Fixture.toyVerify Fixture.pool Fixture.txNoInput)) = 0%nat.
Proof. repeat split; vm_compute; reflexivity. Qed.

(** ** The range of exact totals *)

Lemma sumZ_abs (l : list Z) : Z.abs (sumZ l) <= sumZ (map Z.abs l).
Proof.
  induction l as [|x l IH]; [done|].
  change (Z.abs (x + sumZ l) <= Z.abs x + sumZ (map Z.abs l)). lia.
Qed.

Lemma sumZ_abs_nonneg (l : list Z) : 0 <= sumZ (map Z.abs l).
Proof.
  induction l as [|x l IH]; [done|].
  change (0 <= Z.abs x + sumZ (map Z.abs l)). lia.
Qed.

Lemma sumZ_abs_take {A : Type} (f : A -> Z) (n : nat) (l : list A) :
  sumZ (map Z.abs (map f (take n l))) <= sumZ (map Z.abs (map f l)).
Proof.
  revert n. induction l as [|x l IH]; intros [|n]; try done.
  - change (0 <= sumZ (map Z.abs (map f (x :: l)))). apply sumZ_abs_nonneg.
  - change (Z.abs (f x) + sumZ (map Z.abs (map f (take n l)))
            <= Z.abs (f x) + sumZ (map Z.abs (map f l))).
    specialize (IH n). lia.
Qed.

Lemma sumZ_abs_omap_take {A : Type} (g : A -> option UTXO.t) (n : nat) (l : list A) :
  sumZ (map Z.abs (map UTXO.amount (omap g (take n l))))
  <= sumZ (map Z.abs (map UTXO.amount (omap g l))).
Proof.
  revert n. induction l as [|x l IH]; intros [|n]; try done.
  - change (0 <= sumZ (map Z.abs (map UTXO.amount (omap g (x :: l))))).
    apply sumZ_abs_nonneg.
  - specialize (IH n). cbn [take omap list_omap].
    destruct (g x) as [u|]; [|exact IH].
    change (Z.abs (UTXO.amount u)
            + sumZ (map Z.abs (map UTXO.amount (omap g (take n l))))
            <= Z.abs (UTXO.amount u) + sumZ (map Z.abs (map UTXO.amount (omap g l)))).
    lia.
Qed.

(** On the range [exactTotals] the two accumulators of a pass hold, after
    every iteration of their loop, an integer of magnitude at most 2^53: the
    value a double holds exactly. *)
Lemma partial_totals_exact (pool : UTXOPoolManager) tx (n : nat) :
  exactTotals pool tx ->
  Z.abs (totalOutput (take n (Transaction.outputs tx))) <= 2 ^ 53
  /\ Z.abs (totalInput pool (take n (Transaction.inputs tx))) <= 2 ^ 53.
Proof.
  intros [Ho Hi]. unfold totalOutput, totalInput. split.
  - etrans; [apply sumZ_abs|]. etrans; [apply sumZ_abs_take|exact Ho].
  - etrans; [apply sumZ_abs|]. etrans; [apply sumZ_abs_omap_take|exact Hi].
Qed.

(** ** Acceptance (C2) *)

(** C2 as stated fails: in [Fixture.txNegativeOutput] the input resolves, its
    signature verifies, the totals are both 100 and no identifier repeats,
    yet the output of -5 is reported and the transaction is invalid. *)
Lemma balanced_signed_unique_not_enough :
  ~ (forall (verify : string -> string -> string -> bool) (pool : UTXOPoolManager) tx,
       (forall input, input ∈ Transaction.inputs tx ->
          exists u, resolve pool input = Some u
                    /\ verify (createTransactionDataForSigning tx)
                              (TransactionInput.signature input)
                              (UTXO.recipient u) = true) ->
       totalInput pool (Transaction.inputs tx) = totalOutput (Transaction.outputs tx) ->
       NoDup (map TransactionInput.utxoId (Transaction.inputs tx)) ->
       verdict verify pool tx = {| valid := true; errors := [] |}).
Proof.
  intros H.
  specialize (H Fixture.toyVerify Fixture.pool Fixture.txNegativeOutput).
  assert (E : valid (verdict Fixture.toyVerify Fixture.pool Fixture.txNegativeOutput) = true).
  { rewrite H; [done| | |].
    - intros input Hin. apply list_elem_of_singleton in Hin as ->.
      exists Fixture.utxoA. split; vm_compute; reflexivity.
    - vm_compute; reflexivity.
    - apply NoDup_singleton. }
  vm_compute in E. discriminate.
Qed.

(** C2, amended: when moreover every output amount and every referenced UTXO
    amount is strictly positive, and these integer amounts stay in the range
    on which the totals of the routine are exact, the verdict is [valid] with
    no error. *)
Theorem well_formed_transaction_valid (verify : string -> string -> string -> bool)
        (pool : UTXOPoolManager) tx :
  exactTotals pool tx ->
  (forall input, input ∈ Transaction.inputs tx ->
     exists u, resolve pool input = Some u
               /\ 0 < UTXO.amount u
               /\ verify (createTransactionDataForSigning tx)
                         (TransactionInput.signature input)
                         (UTXO.recipient u) = true) ->
  (forall o, o ∈ Transaction.outputs tx -> 0 < TransactionOutput.amount o) ->
  totalInput pool (Transaction.inputs tx) = totalOutput (Transaction.outputs tx) ->
  NoDup (map TransactionInput.utxoId (Transaction.inputs tx)) ->
  verdict verify pool tx = {| valid := true; errors := [] |}.
Proof.
  intros _ Hin Hout Hbal Hnd.
  assert (Hes : errors (verdict verify pool tx) = []).
  { rewrite verdict_errors. apply loopErrors_nil; [| |done|].
    - unfold wholeErrors.
      rewrite outputErrors_nil by done.
      rewrite utxoAmountErrors_nil.
      2:{ intros input u Hi Hu. destruct (Hin input Hi) as (u' & Hu' & Hpos & _).
          congruence. }
      rewrite signatureErrors_nil.
      2:{ intros input u Hi Hu. destruct (Hin input Hi) as (u' & Hu' & _ & Hv).
          congruence. }
      unfold balanceErrors. rewrite Hbal, Z.eqb_refl. done.
    - intros input Hi. destruct (Hin input Hi) as (u & Hu & _). by exists u.
    - intros input _. apply not_elem_of_empty. }
  pose proof (verdict_valid verify pool tx) as Hv. rewrite Hes in Hv.
  destruct (verdict verify pool tx) as [v es]; simpl in *. by subst.
Qed.

Lemma well_formed_transaction_valid_witness :
  verdict Fixture.toyVerify Fixture.pool Fixture.txGood
  = {| valid := true; errors := [] |}.
Proof.
  apply well_formed_transaction_valid.
  - split; vm_compute; discriminate.
  - intros input Hin. apply list_elem_of_singleton in Hin as ->.
    exists Fixture.utxoA. repeat split; vm_compute; reflexivity.
  - intros o Ho. apply list_elem_of_singleton in Ho as ->. vm_compute; reflexivity.
  - vm_compute; reflexivity.
  - apply NoDup_singleton.
Defined.

(** ** Signatures (C3) *)

(** The signature loop stands inside the outer callback: an
    [INVALID_SIGNATURE] is pushed for an input once per input of the
    transaction. *)
Lemma invalid_signature_count (verify : string -> string -> string -> bool)
      (pool : UTXOPoolManager) tx i :
  countError (invalidSignature i) (errors (verdict verify pool tx))
  = (length (Transaction.inputs tx)
     * countError (invalidSignature i)
         (signatureErrors verify pool tx (Transaction.inputs tx)))%nat.
Proof.
  rewrite verdict_errors, countError_loop_whole by done.
  unfold wholeErrors. rewrite !countError_app.
  rewrite (countError_other _ _ _ (outputErrors_kind _)) by done.
  rewrite (countError_other _ _ _ (utxoAmountErrors_kind _ _)) by done.
  rewrite (countError_other _ _ _ (balanceErrors_kind _ _)) by done.
  done.
Qed.

(** With a single input that resolves, one [INVALID_SIGNATURE] exactly when
    the signature fails against the recipient recorded in the pool. *)
Lemma single_input_signature (verify : string -> string -> string -> bool)
      (pool : UTXOPoolManager) tx input u :
  Transaction.inputs tx = [input] ->
  resolve pool input = Some u ->
  countError (invalidSignature (TransactionInput.utxoId input))
             (errors (verdict verify pool tx))
  = if verify (createTransactionDataForSigning tx)
              (TransactionInput.signature input) (UTXO.recipient u)
    then 0%nat else 1%nat.
Proof.
  intros Hin Hu. rewrite invalid_signature_count, Hin.
  cbn [signatureErrors flat_map length Nat.mul Nat.add].
  rewrite Hu, app_nil_r, Nat.add_0_r. unfold signatureFails.
  destruct (verify _ _ _); cbn [negb]; [done|].
  by rewrite countError_singleton, bool_decide_eq_true_2.
Qed.

Lemma countError_pos e es : (0 < countError e es)%nat <-> e ∈ es.
Proof.
  unfold countError. induction es as [|x es IH]; [rewrite elem_of_nil; simpl; lia|].
  rewrite elem_of_cons. destruct (decide (x = e)) as [->|Hne].
  - rewrite filter_cons_True by done. simpl. split; [by left|lia].
  - rewrite filter_cons_False by done. rewrite IH. split; [by right|].
    intros [E|E]; [congruence|done].
Qed.

Lemma elem_of_signatureErrors (verify : string -> string -> string -> bool)
      (pool : UTXOPoolManager) tx i (inputs : list TransactionInput.t) :
  invalidSignature i ∈ signatureErrors verify pool tx inputs
  <-> exists input u,
        input ∈ inputs /\ TransactionInput.utxoId input = i
        /\ resolve pool input = Some u
        /\ verify (createTransactionDataForSigning tx)
                   (TransactionInput.signature input) (UTXO.recipient u) = false.
Proof.
  induction inputs as [|j inputs IH].
  { cbn [signatureErrors flat_map]. rewrite elem_of_nil. split; [done|].
    intros (input & u & Hin & _). by apply elem_of_nil in Hin. }
  cbn [signatureErrors flat_map]. fold (signatureErrors verify pool tx inputs).
  rewrite elem_of_app, IH. unfold signatureFails. split.
  - intros [H|(input & u & Hin & H)].
    + destruct (resolve pool j) as [u|] eqn:Hj; [|by apply elem_of_nil in H].
      destruct (verify _ _ _) eqn:Hv; cbn [negb] in H; [by apply elem_of_nil in H|].
      apply list_elem_of_singleton, invalidSignature_inj in H.
      exists j, u. repeat split; [by left|done|done|done].
    + exists input, u. split; [by right|done].
  - intros (input & u & Hin & Hid & Hu & Hv).
    apply elem_of_cons in Hin as [->|Hin].
    + left. rewrite Hu, Hv. cbn [negb]. rewrite Hid. by left.
    + right. by exists input, u.
Qed.

(** An [INVALID_SIGNATURE] for the identifier [i] is reported exactly when
    some input that refers to [i] resolves and its signature fails against
    the recipient the pool records. *)
Lemma invalid_signature_reported_iff (verify : string -> string -> string -> bool)
      (pool : UTXOPoolManager) tx i :
  invalidSignature i ∈ errors (verdict verify pool tx)
  <-> exists input u,
        input ∈ Transaction.inputs tx /\ TransactionInput.utxoId input = i
        /\ resolve pool input = Some u
        /\ verify (createTransactionDataForSigning tx)
                   (TransactionInput.signature input) (UTXO.recipient u) = false.
Proof.
  rewrite <- elem_of_signatureErrors, <- !countError_pos, invalid_signature_count.
  destruct (Transaction.inputs tx) as [|j inputs].
  - cbn [signatureErrors flat_map length].
    change (countError (invalidSignature i) []) with 0%nat. lia.
  - cbn [length]. nia.
Qed.

(** C3, on the code: in [Fixture.txForged] both inputs resolve, the totals
    balance, the first signature verifies and the second does not.  The error
    list holds two [INVALID_SIGNATURE] errors for the second identifier, not
    one. *)
Theorem invalid_signature_once_per_input :
  resolve Fixture.pool Fixture.inputBforged = Some Fixture.utxoB
  /\ Fixture.toyVerify (createTransactionDataForSigning Fixture.txForged)
       (TransactionInput.signature Fixture.inputBforged)
       (UTXO.recipient Fixture.utxoB) = false
  /\ errors (verdict Fixture.toyVerify Fixture.pool Fixture.txForged)
     = [invalidSignature Fixture.idB; invalidSignature Fixture.idB]
  /\ countError (invalidSignature Fixture.idB)
       (errors (verdict Fixture.toyVerify Fixture.pool Fixture.txForged)) = 2%nat.
Proof. repeat split; vm_compute; reflexivity. Qed.

(** ** Output amounts (C4) *)

Lemma negativeOutput_not_negativeUTXO a u : negativeUTXO u <> negativeOutput a.
Proof. discriminate. Qed.

(** The output loop stands inside the outer callback: an offending output is
    reported once per input of the transaction. *)
Lemma negative_output_count (verify : string -> string -> string -> bool)
      (pool : UTXOPoolManager) tx a :
  countError (negativeOutput a) (errors (verdict verify pool tx))
  = (length (Transaction.inputs tx)
     * countError (negativeOutput a) (outputErrors (Transaction.outputs tx)))%nat.
Proof.
  rewrite verdict_errors, countError_loop_whole by done.
  unfold wholeErrors. rewrite !countError_app.
  rewrite (countError_other _ _ _ (signatureErrors_kind _ _ _ _)) by done.
  rewrite (countError_other _ _ _ (balanceErrors_kind _ _)) by done.
  assert (H : countError (negativeOutput a)
                (utxoAmountErrors pool (Transaction.inputs tx)) = 0%nat).
  { unfold utxoAmountErrors, countError.
    induction (omap (resolve pool) (Transaction.inputs tx)) as [|u us IH]; [done|].
    simpl. rewrite filter_app, length_app, IH.
    destruct (_ <=? _); [|done].
    rewrite filter_cons_False; [done|]. apply negativeOutput_not_negativeUTXO. }
  rewrite H. lia.
Qed.

(** C4, on the code: [Fixture.txNoInputNegative] has an output of -5 and no
    input, and no [NEGATIVE_AMOUNT] is reported;
    [Fixture.txTwoInputsNegative] has one output of -5 and two inputs, and
    the output is reported twice. *)
Theorem negative_output_once_per_input :
  map TransactionOutput.amount (Transaction.outputs Fixture.txNoInputNegative) = [-5]
  /\ errors (verdict Fixture.toyVerify Fixture.pool Fixture.txNoInputNegative) = []
  /\ map TransactionOutput.amount (Transaction.outputs Fixture.txTwoInputsNegative)
     = [155; -5]
  /\ errors (verdict Fixture.toyVerify Fixture.pool Fixture.txTwoInputsNegative)
     = [negativeOutput (-5); negativeOutput (-5)]
  /\ countError (negativeOutput (-5))
       (errors (verdict Fixture.toyVerify Fixture.pool Fixture.txTwoInputsNegative))
     = 2%nat.
Proof. repeat split; vm_compute; reflexivity. Qed.

(** ** Empty sides (C5) *)

(** The verdict is valid exactly when no check has pushed an error; with no
    output and at least one input the balance check is one of them, run
    against a total output of 0. *)
Lemma valid_iff_no_error (verify : string -> string -> string -> bool)
      (pool : UTXOPoolManager) tx :
  valid (verdict verify pool tx) = true
  <-> errors (verdict verify pool tx) = [].
Proof.
  rewrite verdict_valid. destruct (errors _); simpl; split; intros; done.
Qed.

(** C5, on the code: [Fixture.txNoInput] has no input and one output of 10;
    the totals are 0 and 10, and the verdict is valid with no error. *)
Theorem no_input_transaction_accepted :
  Transaction.inputs Fixture.txNoInput = []
  /\ totalInput Fixture.pool (Transaction.inputs Fixture.txNoInput) = 0
  /\ totalOutput (Transaction.outputs Fixture.txNoInput) = 10
  /\ verdict Fixture.toyVerify Fixture.pool Fixture.txNoInput
     = {| valid := true; errors := [] |}.
Proof. repeat split; vm_compute; reflexivity. Qed.

(** ** Inputs absent from the pool (C6) *)

Lemma countError_signatureErrors_absent verify pool tx i
      (inputs : list TransactionInput.t) :
  pool !! (UtxoId.txId i, UtxoId.outputIndex i) = None ->
  countError (invalidSignature i) (signatureErrors verify pool tx inputs) = 0%nat.
Proof.
  intros Hi. induction inputs as [|j inputs IH]; [done|].
  cbn [signatureErrors flat_map]. rewrite countError_app.
  fold (signatureErrors verify pool tx inputs). rewrite IH.
  destruct (resolve pool j) as [u|] eqn:Hj; [|done].
  destruct (signatureFails _ _ _ _); [|done].
  rewrite countError_singleton, bool_decide_eq_false_2; [done|].
  intros E. apply invalidSignature_inj in E. unfold resolve in Hj.
  rewrite E, Hi in Hj. discriminate.
Qed.

(** C6: for an identifier [i] that is not in the pool, the error list holds
    one [UTXO_NOT_FOUND] for [i] per input that refers to [i] and no
    [INVALID_SIGNATURE] for [i]; and the loop that sums and checks the UTXO
    amounts and the loop that verifies the signatures run as they do on the
    inputs without those that refer to [i]: same total, same errors, same
    store. *)
Theorem absent_input_reported_once_and_skipped
        (verify : string -> string -> string -> bool) (pool : UTXOPoolManager) tx i :
  pool !! (UtxoId.txId i, UtxoId.outputIndex i) = None ->
  countError (utxoNotFound i) (errors (verdict verify pool tx))
  = occurrences i (Transaction.inputs tx)
  /\ countError (invalidSignature i) (errors (verdict verify pool tx)) = 0%nat
  /\ forall s (inputs : list TransactionInput.t),
       utxoPool s = pool ->
       checkInputAmounts inputs s
       = checkInputAmounts
           (filter (fun input => TransactionInput.utxoId input <> i) inputs) s
       /\ checkSignatures verify inputs s
          = checkSignatures verify
              (filter (fun input => TransactionInput.utxoId input <> i) inputs) s.
Proof.
  intros Hi. repeat split.
  - by rewrite verdict_errors, countError_loop_notFound, Hi.
  - rewrite invalid_signature_count, countError_signatureErrors_absent by done. lia.
  - rewrite !checkInputAmounts_run. subst pool.
    unfold totalInput, utxoAmountErrors. by rewrite omap_resolve_absent.
  - rewrite !checkSignatures_run. subst pool. by rewrite signatureErrors_absent.
Qed.

Lemma absent_input_reported_once_and_skipped_witness :
  countError (utxoNotFound Fixture.idGone)
             (errors (verdict Fixture.toyVerify Fixture.pool Fixture.txGoneThrice))
  = 3%nat.
Proof.
  apply (absent_input_reported_once_and_skipped
           Fixture.toyVerify Fixture.pool Fixture.txGoneThrice Fixture.idGone).
  vm_compute; reflexivity.
Defined.

(** ** Double spending (C7, C10) *)

Lemma doubleSpending_in_order verify pool tx seen earlier
      (inputs : list TransactionInput.t) :
  (forall j, utxoKey j ∈ seen <-> j ∈ earlier) ->
  filter (fun e => kind e = DOUBLE_SPENDING) (loopErrors verify pool tx seen inputs)
  = map (fun j => doubleSpending (utxoKey j))
        (repeats earlier (map TransactionInput.utxoId inputs)).
Proof.
  revert seen earlier. induction inputs as [|i inputs IH]; intros seen earlier Hs.
  { done. }
  rewrite filter_doubleSpending_loop. cbn [map repeats]. rewrite map_app.
  rewrite (IH _ (TransactionInput.utxoId i :: earlier)).
  - f_equal. unfold doubleSpendErrors.
    destruct (decide (TransactionInput.utxoId i ∈ earlier)) as [H|H].
    + rewrite !bool_decide_eq_true_2; [done|done|by apply Hs].
    + rewrite !bool_decide_eq_false_2; [done|done|by rewrite Hs].
  - intros j. rewrite elem_of_union, elem_of_singleton, elem_of_cons, Hs.
    split; (intros [E|E]; [left|by right]).
    + by apply utxoKey_inj.
    + by rewrite E.
Qed.

(** C7: when the identifier [i] occurs [k >= 2] times among the inputs, the
    error list holds [k - 1] [DOUBLE_SPENDING] errors for [i]; and the
    [DOUBLE_SPENDING] errors of the list are, in order, one for every
    occurrence of an identifier that is not its first. *)
Theorem double_spending_once_per_repeat
        (verify : string -> string -> string -> bool) (pool : UTXOPoolManager) tx i :
  (2 <= occurrences i (Transaction.inputs tx))%nat ->
  countError (doubleSpending (utxoKey i)) (errors (verdict verify pool tx))
  = (occurrences i (Transaction.inputs tx) - 1)%nat
  /\ filter (fun e => kind e = DOUBLE_SPENDING) (errors (verdict verify pool tx))
     = map (fun j => doubleSpending (utxoKey j))
           (repeats [] (map TransactionInput.utxoId (Transaction.inputs tx))).
Proof.
  intros _. rewrite verdict_errors. split.
  - rewrite countError_loop_doubleSpending.
    rewrite bool_decide_eq_false_2; [done|apply not_elem_of_empty].
  - apply doubleSpending_in_order. intros j. split; intros H.
    + by apply not_elem_of_empty in H.
    + by apply not_elem_of_nil in H.
Qed.

Lemma double_spending_once_per_repeat_witness :
  countError (doubleSpending (utxoKey Fixture.idA))
             (errors (verdict Fixture.toyVerify Fixture.pool Fixture.txThrice))
  = 2%nat.
Proof.
  apply (double_spending_once_per_repeat
           Fixture.toyVerify Fixture.pool Fixture.txThrice Fixture.idA).
  vm_compute. lia.
Defined.

(** C10: the [DOUBLE_SPENDING] errors of a transaction are the same whatever
    the pool and the verifier; an identifier that is not in the pool and
    occurs [k >= 2] times yields [k - 1] of them, and one [UTXO_NOT_FOUND]
    per occurrence. *)
Theorem double_spending_independent_of_pool
        (verify : string -> string -> string -> bool) (pool : UTXOPoolManager) tx i :
  pool !! (UtxoId.txId i, UtxoId.outputIndex i) = None ->
  (2 <= occurrences i (Transaction.inputs tx))%nat ->
  countError (doubleSpending (utxoKey i)) (errors (verdict verify pool tx))
  = (occurrences i (Transaction.inputs tx) - 1)%nat
  /\ countError (utxoNotFound i) (errors (verdict verify pool tx))
     = occurrences i (Transaction.inputs tx)
  /\ forall (verify' : string -> string -> string -> bool) (pool' : UTXOPoolManager),
       filter (fun e => kind e = DOUBLE_SPENDING) (errors (verdict verify' pool' tx))
       = filter (fun e => kind e = DOUBLE_SPENDING) (errors (verdict verify pool tx)).
Proof.
  intros Hi _. repeat split.
  - rewrite verdict_errors, countError_loop_doubleSpending.
    rewrite bool_decide_eq_false_2; [done|apply not_elem_of_empty].
  - by rewrite verdict_errors, countError_loop_notFound, Hi.
  - intros verify' pool'. rewrite !verdict_errors.
    assert (Hs : forall j : UtxoId.t, utxoKey j ∈ (∅ : gset string) <-> j ∈ @nil UtxoId.t).
    { intros j. split; intros H.
      - by apply not_elem_of_empty in H.
      - by apply not_elem_of_nil in H. }
    by rewrite !(doubleSpending_in_order _ _ _ _ _ _ Hs).
Qed.

Lemma double_spending_independent_of_pool_witness :
  countError (doubleSpending (utxoKey Fixture.idGone))
             (errors (verdict Fixture.toyVerify Fixture.pool Fixture.txGoneThrice))
  = 2%nat
  /\ countError (utxoNotFound Fixture.idGone)
                (errors (verdict Fixture.toyVerify Fixture.pool Fixture.txGoneThrice))
     = 3%nat.
Proof.
  destruct (double_spending_independent_of_pool
              Fixture.toyVerify Fixture.pool Fixture.txGoneThrice Fixture.idGone)
    as (H1 & H2 & _).
  - vm_compute; reflexivity.
  - vm_compute. lia.
  - split; [exact H1 | exact H2].
Defined.

(** ** The payload determines what it serialises *)









(** *** Numerals *)






(** *** Objects and arrays *)



















(** ** The signing payload (C8) *)






(** The order in which an output object holds its properties is part of the
    payload: the output of [Fixture.txGood] written recipient first gives
    another payload. *)
Example member_order_is_signed :
  createTransactionDataForSigning
    (Transaction.mk "t1" [Fixture.inputA]
       [TransactionOutput.mk 100 "B"
          [JS.Field TransactionOutput.Krecipient; JS.Field TransactionOutput.Kamount]]
       1700000000)
  <> createTransactionDataForSigning Fixture.txGood.
Proof. vm_compute. discriminate. Qed.

(** ** No side effect (C9) *)

(** C9: a call leaves the pool and the transaction of the store as they
    were, and a second call from the store the first one leaves returns the
    same result and leaves the same store. *)
Theorem validateTransaction_idempotent
        (verify : string -> string -> string -> bool) (s : Store) :
  let first := validateTransaction verify s in
  let second := validateTransaction verify first.2 in
  utxoPool first.2 = utxoPool s
  /\ transaction first.2 = transaction s
  /\ second = first.
Proof.
  cbv zeta. rewrite (validateTransaction_run verify s). cbn [fst snd].
  repeat split. by rewrite validateTransaction_run.
Qed.

(** ** Further properties of the routine *)

Lemma filter_mismatch_whole verify pool tx :
  filter (fun e => kind e = AMOUNT_MISMATCH) (wholeErrors verify pool tx)
  = balanceErrors (totalInput pool (Transaction.inputs tx))
                  (totalOutput (Transaction.outputs tx)).
Proof.
  unfold wholeErrors. rewrite !filter_app.
  rewrite (filter_kind_other _ _ _ (outputErrors_kind _)) by done.
  rewrite (filter_kind_other _ _ _ (utxoAmountErrors_kind _ _)) by done.
  rewrite (filter_kind_other _ _ _ (signatureErrors_kind _ _ _ _)) by done.
  rewrite (filter_kind_same _ _ (balanceErrors_kind _ _)).
  by rewrite app_nil_r.
Qed.

Lemma filter_mismatch_loop verify pool tx seen (inputs : list TransactionInput.t) :
  filter (fun e => kind e = AMOUNT_MISMATCH) (loopErrors verify pool tx seen inputs)
  = if totalInput pool (Transaction.inputs tx) =? totalOutput (Transaction.outputs tx)
    then []
    else replicate (length inputs)
           (amountMismatch (totalInput pool (Transaction.inputs tx))
                           (totalOutput (Transaction.outputs tx))).
Proof.
  revert seen. induction inputs as [|i inputs IH]; intros seen.
  { by destruct (_ =? _). }
  cbn [loopErrors length replicate]. unfold inputErrors. rewrite !filter_app, IH.
  rewrite (filter_kind_other _ _ _ (existenceErrors_kind _ _)) by done.
  rewrite (filter_kind_other _ _ _ (doubleSpendErrors_kind _ _)) by done.
  rewrite filter_mismatch_whole. unfold balanceErrors.
  by destruct (_ =? _).
Qed.

(** X4: for integer amounts in the range on which the totals of the routine
    are exact, the [AMOUNT_MISMATCH] errors of a verdict are none when the
    two totals are equal, and otherwise one copy per input of the same error,
    which carries the total of the resolved inputs and the total of the
    outputs. *)
Theorem amount_mismatch_errors_exact (verify : string -> string -> string -> bool)
        (pool : UTXOPoolManager) tx :
  exactTotals pool tx ->
  filter (fun e => kind e = AMOUNT_MISMATCH) (errors (verdict verify pool tx))
  = if totalInput pool (Transaction.inputs tx) =? totalOutput (Transaction.outputs tx)
    then []
    else replicate (length (Transaction.inputs tx))
           (amountMismatch (totalInput pool (Transaction.inputs tx))
                           (totalOutput (Transaction.outputs tx))).
Proof. intros _. by rewrite verdict_errors, filter_mismatch_loop. Qed.

Lemma amount_mismatch_errors_exact_witness :
  filter (fun e => kind e = AMOUNT_MISMATCH)
         (errors (verdict Fixture.toyVerify Fixture.pool Fixture.txShort))
  = [amountMismatch 150 140; amountMismatch 150 140].
Proof.
  apply (amount_mismatch_errors_exact Fixture.toyVerify Fixture.pool Fixture.txShort).
  split; vm_compute; discriminate.
Defined.

Lemma countError_outputErrors a (outputs : list TransactionOutput.t) :
  countError (negativeOutput a) (outputErrors outputs)
  = if a <=? 0
    then length (filter (fun o => TransactionOutput.amount o = a) outputs)
    else 0%nat.
Proof.
  induction outputs as [|o outputs IH].
  { by destruct (a <=? 0). }
  cbn [outputErrors flat_map]. fold (outputErrors outputs).
  rewrite countError_app, IH. clear IH.
  destruct (decide (TransactionOutput.amount o = a)) as [E|E].
  - rewrite filter_cons_True by done. rewrite E.
    destruct (a <=? 0); [|reflexivity].
    rewrite countError_singleton, bool_decide_eq_true_2 by done. reflexivity.
  - rewrite filter_cons_False by done.
    destruct (TransactionOutput.amount o <=? 0); [|reflexivity].
    rewrite countError_singleton, bool_decide_eq_false_2; [reflexivity|].
    intros H. by apply negativeOutput_inj in H.
Qed.

(** X5: an output amount [a] is reported when [a <= 0], zero included, once
    per output of that amount and per input of the transaction; an amount
    above zero is never reported. *)
Theorem negative_output_errors_exact (verify : string -> string -> string -> bool)
        (pool : UTXOPoolManager) tx a :
  countError (negativeOutput a) (errors (verdict verify pool tx))
  = if a <=? 0
    then (length (Transaction.inputs tx)
          * length (filter (fun o => TransactionOutput.amount o = a)
                           (Transaction.outputs tx)))%nat
    else 0%nat.
Proof.
  rewrite negative_output_count, countError_outputErrors.
  destruct (a <=? 0); lia.
Qed.

Lemma countError_signatureErrors verify pool tx i (inputs : list TransactionInput.t) :
  countError (invalidSignature i) (signatureErrors verify pool tx inputs)
  = length (filter (fun input => TransactionInput.utxoId input = i
                                 /\ signatureRejected verify pool tx input = true)
                   inputs).
Proof.
  induction inputs as [|j inputs IH]; [done|].
  cbn [signatureErrors flat_map]. fold (signatureErrors verify pool tx inputs).
  rewrite countError_app, IH. unfold signatureRejected at 2.
  destruct (resolve pool j) as [u|] eqn:Hj.
  - destruct (signatureFails verify tx j u) eqn:Hf.
    + destruct (decide (TransactionInput.utxoId j = i)) as [E|E].
      * rewrite filter_cons_True by (split; [done|unfold signatureRejected; by rewrite Hj]).
        by rewrite countError_singleton, E, bool_decide_eq_true_2.
      * rewrite filter_cons_False by (intros [? _]; done).
        rewrite countError_singleton, bool_decide_eq_false_2; [done|].
        intros H. by apply invalidSignature_inj in H.
    + rewrite filter_cons_False; [done|].
      intros [_ H]. unfold signatureRejected in H. rewrite Hj in H. congruence.
  - rewrite filter_cons_False; [done|].
    intros [_ H]. unfold signatureRejected in H. by rewrite Hj in H.
Qed.

(** X7: the number of [INVALID_SIGNATURE] errors for an identifier is the
    number of inputs of the transaction times the number of inputs that refer
    to it, resolve, and fail verification against the recorded recipient. *)
Theorem invalid_signature_errors_exact (verify : string -> string -> string -> bool)
        (pool : UTXOPoolManager) tx i :
  countError (invalidSignature i) (errors (verdict verify pool tx))
  = (length (Transaction.inputs tx)
     * length (filter (fun input => TransactionInput.utxoId input = i
                                    /\ signatureRejected verify pool tx input = true)
                      (Transaction.inputs tx)))%nat.
Proof. by rewrite invalid_signature_count, countError_signatureErrors. Qed.

Lemma filter_notFound_whole verify pool tx :
  filter (fun e => kind e = UTXO_NOT_FOUND) (wholeErrors verify pool tx) = [].
Proof.
  induction (wholeErrors_kinds verify pool tx) as [|x es Hx _ IH]; [done|].
  rewrite filter_cons_False; [done|]. intros E. rewrite E in Hx.
  destruct Hx as [?|[?|?]]; discriminate.
Qed.

Lemma filter_notFound_loop verify pool tx seen (inputs : list TransactionInput.t) :
  filter (fun e => kind e = UTXO_NOT_FOUND) (loopErrors verify pool tx seen inputs)
  = map (fun input => utxoNotFound (TransactionInput.utxoId input))
        (filter (fun input => resolve pool input = None) inputs).
Proof.
  revert seen. induction inputs as [|i inputs IH]; intros seen; [done|].
  cbn [loopErrors]. unfold inputErrors. rewrite !filter_app, IH.
  rewrite filter_notFound_whole.
  rewrite (filter_kind_other _ _ _ (doubleSpendErrors_kind _ _)) by done.
  rewrite (filter_kind_same _ _ (existenceErrors_kind _ _)).
  unfold existenceErrors. destruct (resolve pool i) as [u|] eqn:Hi.
  - by rewrite filter_cons_False by (rewrite Hi; done).
  - by rewrite filter_cons_True by done.
Qed.

(** X8: the [UTXO_NOT_FOUND] errors of a verdict are, in the order of the
    inputs, one per input whose identifier is not in the pool, each naming
    that identifier. *)
Theorem utxo_not_found_errors_exact (verify : string -> string -> string -> bool)
        (pool : UTXOPoolManager) tx :
  filter (fun e => kind e = UTXO_NOT_FOUND) (errors (verdict verify pool tx))
  = map (fun input => utxoNotFound (TransactionInput.utxoId input))
        (filter (fun input => resolve pool input = None) (Transaction.inputs tx)).
Proof. by rewrite verdict_errors, filter_notFound_loop. Qed.

Lemma repeats_nil (earlier ids : list UtxoId.t) :
  repeats earlier ids = [] <-> NoDup ids /\ forall i, i ∈ ids -> i ∉ earlier.
Proof.
  revert earlier. induction ids as [|i ids IH]; intros earlier.
  { cbn [repeats]. split; [|done]. intros _. split; [constructor|].
    intros i Hi. by apply elem_of_nil in Hi. }
  cbn [repeats]. rewrite app_nil, IH, NoDup_cons. split.
  - intros (Hi & Hnd & Hrest). case_bool_decide as Hin; [discriminate|].
    repeat split; [|done|].
    + intros Hi'. apply (Hrest i Hi'). by left.
    + intros j Hj. apply elem_of_cons in Hj as [->|Hj]; [done|].
      intros Hj'. apply (Hrest j Hj). by right.
  - intros ((Hi & Hnd) & Hrest). repeat split; [|done|].
    + rewrite bool_decide_eq_false_2; [done|]. apply Hrest. by left.
    + intros j Hj Hj'. apply elem_of_cons in Hj' as [->|Hj']; [done|].
      apply (Hrest j); [by right|done].
Qed.

(** X9: a verdict holds no [DOUBLE_SPENDING] error exactly when no two inputs
    of the transaction refer to the same identifier. *)
Theorem no_double_spending_iff_distinct (verify : string -> string -> string -> bool)
        (pool : UTXOPoolManager) tx :
  countKind DOUBLE_SPENDING (errors (verdict verify pool tx)) = 0%nat
  <-> NoDup (map TransactionInput.utxoId (Transaction.inputs tx)).
Proof.
  unfold countKind. rewrite verdict_errors.
  rewrite (doubleSpending_in_order _ _ _ _ []).
  2:{ intros j. split; intros H.
      - by apply not_elem_of_empty in H.
      - by apply not_elem_of_nil in H. }
  rewrite length_map, length_zero_iff_nil, repeats_nil. split.
  - by intros [H _].
  - intros H. split; [done|]. intros i _. apply not_elem_of_nil.
Qed.

(** X10: the key under which an identifier is remembered determines the
    identifier, also when the transaction id itself holds colons. *)
Theorem utxoKey_determines_identifier (i j : UtxoId.t) :
  utxoKey i = utxoKey j <-> i = j.
Proof. split; [apply utxoKey_inj|by intros ->]. Qed.

Lemma omap_resolve_agree pool1 pool2 (inputs : list TransactionInput.t) :
  (forall input, input ∈ inputs -> resolve pool1 input = resolve pool2 input) ->
  omap (resolve pool1) inputs = omap (resolve pool2) inputs.
Proof.
  induction inputs as [|i inputs IH]; intros H; [done|].
  cbn [omap list_omap]. rewrite <- (H i) by (by left).
  destruct (resolve pool1 i); [f_equal|]; apply IH; intros; apply H; by right.
Qed.

Lemma signatureErrors_agree verify1 verify2 pool1 pool2 tx
      (inputs : list TransactionInput.t) :
  (forall input, input ∈ inputs -> resolve pool1 input = resolve pool2 input) ->
  (forall input u, input ∈ inputs -> resolve pool1 input = Some u ->
     verify1 (createTransactionDataForSigning tx)
             (TransactionInput.signature input) (UTXO.recipient u)
     = verify2 (createTransactionDataForSigning tx)
               (TransactionInput.signature input) (UTXO.recipient u)) ->
  signatureErrors verify1 pool1 tx inputs = signatureErrors verify2 pool2 tx inputs.
Proof.
  induction inputs as [|i inputs IH]; intros Hr Hv; [done|].
  cbn [signatureErrors flat_map].
  fold (signatureErrors verify1 pool1 tx inputs).
  fold (signatureErrors verify2 pool2 tx inputs).
  rewrite IH; [|intros; apply Hr; by right|intros ????; eapply Hv; [by right|done]].
  f_equal. rewrite <- (Hr i) by (by left).
  destruct (resolve pool1 i) as [u|] eqn:Hi; [|done].
  unfold signatureFails. rewrite (Hv i u); [done|by left|done].
Qed.

Lemma loopErrors_agree verify1 verify2 pool1 pool2 tx seen
      (inputs : list TransactionInput.t) :
  wholeErrors verify1 pool1 tx = wholeErrors verify2 pool2 tx ->
  (forall input, input ∈ inputs -> resolve pool1 input = resolve pool2 input) ->
  loopErrors verify1 pool1 tx seen inputs = loopErrors verify2 pool2 tx seen inputs.
Proof.
  intros Hw. revert seen. induction inputs as [|i inputs IH]; intros seen Hr; [done|].
  cbn [loopErrors]. unfold inputErrors, existenceErrors.
  rewrite Hw, (Hr i) by (by left). rewrite IH; [done|]. intros; apply Hr; by right.
Qed.

(** X11: the verdict depends on the pool only through the outputs the inputs
    refer to, and on the verifier only through its answers for the signatures
    of the inputs that resolve: two pools that agree on these identifiers and
    two verifiers that agree on these signatures give the same verdict. *)
Theorem verdict_local (verify1 verify2 : string -> string -> string -> bool)
        (pool1 pool2 : UTXOPoolManager) tx :
  (forall input, input ∈ Transaction.inputs tx ->
     resolve pool1 input = resolve pool2 input) ->
  (forall input u, input ∈ Transaction.inputs tx -> resolve pool1 input = Some u ->
     verify1 (createTransactionDataForSigning tx)
             (TransactionInput.signature input) (UTXO.recipient u)
     = verify2 (createTransactionDataForSigning tx)
               (TransactionInput.signature input) (UTXO.recipient u)) ->
  verdict verify1 pool1 tx = verdict verify2 pool2 tx.
Proof.
  intros Hr Hv.
  assert (He : errors (verdict verify1 pool1 tx) = errors (verdict verify2 pool2 tx)).
  { rewrite !verdict_errors. apply loopErrors_agree; [|done].
    unfold wholeErrors, utxoAmountErrors, totalInput.
    by rewrite (omap_resolve_agree pool1 pool2 _ Hr),
               (signatureErrors_agree verify1 verify2 pool1 pool2 tx _ Hr Hv). }
  pose proof (verdict_valid verify1 pool1 tx) as H1.
  pose proof (verdict_valid verify2 pool2 tx) as H2.
  destruct (verdict verify1 pool1 tx) as [v1 e1], (verdict verify2 pool2 tx) as [v2 e2].
  simpl in *. subst. done.
Qed.

Lemma verdict_local_witness :
  verdict Fixture.toyVerify Fixture.pool Fixture.txGood
  = verdict Fixture.toyVerify MoreFixture.widerPool Fixture.txGood.
Proof.
  apply verdict_local.
  - intros input Hin. apply list_elem_of_singleton in Hin as ->.
    vm_compute; reflexivity.
  - intros input u _ _. reflexivity.
Defined.

Lemma outputErrors_nil_inv (outputs : list TransactionOutput.t) :
  outputErrors outputs = [] ->
  forall o, o ∈ outputs -> 0 < TransactionOutput.amount o.
Proof.
  induction outputs as [|o outputs IH]; intros H o' Ho'.
  { by apply elem_of_nil in Ho'. }
  cbn [outputErrors flat_map] in H. apply app_nil in H as [Ho H].
  apply elem_of_cons in Ho' as [->|Ho']; [|by apply IH].
  destruct (Z.leb_spec (TransactionOutput.amount o) 0); [discriminate|lia].
Qed.

Lemma utxoAmountErrors_nil_inv pool (inputs : list TransactionInput.t) :
  utxoAmountErrors pool inputs = [] ->
  forall input u, input ∈ inputs -> resolve pool input = Some u -> 0 < UTXO.amount u.
Proof.
  unfold utxoAmountErrors. intros H input u Hin Hu.
  assert (Hu' : u ∈ omap (resolve pool) inputs).
  { apply list_elem_of_omap. by exists input. }
  clear Hin Hu. induction (omap (resolve pool) inputs) as [|v us IH].
  { by apply elem_of_nil in Hu'. }
  cbn [flat_map] in H. apply app_nil in H as [Hv H].
  apply elem_of_cons in Hu' as [->|Hu']; [|by apply IH].
  destruct (Z.leb_spec (UTXO.amount v) 0); [discriminate|lia].
Qed.

Lemma signatureErrors_nil_inv verify pool tx (inputs : list TransactionInput.t) :
  signatureErrors verify pool tx inputs = [] ->
  forall input u, input ∈ inputs -> resolve pool input = Some u ->
    verify (createTransactionDataForSigning tx)
           (TransactionInput.signature input) (UTXO.recipient u) = true.
Proof.
  induction inputs as [|i inputs IH]; intros H input u Hin Hu.
  { by apply elem_of_nil in Hin. }
  cbn [signatureErrors flat_map] in H. apply app_nil in H as [Hi H].
  apply elem_of_cons in Hin as [->|Hin]; [|by apply (IH H input u)].
  rewrite Hu in Hi. unfold signatureFails in Hi.
  destruct (verify _ _ _); [done|discriminate].
Qed.

Lemma loopErrors_nil_inv verify pool tx seen (inputs : list TransactionInput.t) :
  loopErrors verify pool tx seen inputs = [] ->
  (inputs <> [] -> wholeErrors verify pool tx = [])
  /\ (forall input, input ∈ inputs -> is_Some (resolve pool input))
  /\ NoDup (map TransactionInput.utxoId inputs)
  /\ (forall input, input ∈ inputs -> utxoKey (TransactionInput.utxoId input) ∉ seen).
Proof.
  revert seen. induction inputs as [|i inputs IH]; intros seen H.
  { repeat split; [done| |constructor|]; intros input Hin; by apply elem_of_nil in Hin. }
  cbn [loopErrors] in H. unfold inputErrors in H.
  apply app_nil in H as [H Hrest]. apply app_nil in H as [Hex H].
  apply app_nil in H as [Hw Hds].
  destruct (IH _ Hrest) as (_ & Hres & Hnd & Hseen).
  assert (Hi : utxoKey (TransactionInput.utxoId i) ∉ seen).
  { unfold doubleSpendErrors in Hds. by case_bool_decide. }
  repeat split.
  - done.
  - intros input Hin. apply elem_of_cons in Hin as [->|Hin]; [|by apply Hres].
    unfold existenceErrors in Hex. by destruct (resolve pool i).
  - cbn [map]. apply NoDup_cons. split; [|done].
    intros Hin. apply list_elem_of_In, in_map_iff in Hin as (j & Hj & Hin).
    apply list_elem_of_In in Hin. apply (Hseen j Hin).
    rewrite Hj. apply elem_of_union. left. by apply elem_of_singleton.
  - intros input Hin. apply elem_of_cons in Hin as [->|Hin]; [done|].
    intros Hs. apply (Hseen input Hin). apply elem_of_union. by right.
Qed.

(** X1: the exact acceptance condition, for integer amounts in the range on
    which the totals of the routine are exact.  A verdict is valid exactly
    when the transaction has no input, or every input resolves to a UTXO of
    positive amount whose recipient the signature verifies against, every
    output amount is positive, the two totals are equal and no identifier
    occurs twice among the inputs. *)
Theorem valid_iff (verify : string -> string -> string -> bool)
        (pool : UTXOPoolManager) tx :
  exactTotals pool tx ->
  valid (verdict verify pool tx) = true
  <-> Transaction.inputs tx = []
      \/ ((forall input, input ∈ Transaction.inputs tx ->
             exists u, resolve pool input = Some u
                       /\ 0 < UTXO.amount u
                       /\ verify (createTransactionDataForSigning tx)
                                 (TransactionInput.signature input)
                                 (UTXO.recipient u) = true)
          /\ (forall o, o ∈ Transaction.outputs tx -> 0 < TransactionOutput.amount o)
          /\ totalInput pool (Transaction.inputs tx)
             = totalOutput (Transaction.outputs tx)
          /\ NoDup (map TransactionInput.utxoId (Transaction.inputs tx))).
Proof.
  intros _. rewrite valid_iff_no_error, verdict_errors. split.
  - intros H. destruct (Transaction.inputs tx) as [|i inputs] eqn:Hin; [by left|].
    right. rewrite <- Hin in *.
    apply loopErrors_nil_inv in H as (Hw & Hres & Hnd & _).
    assert (Hw' : wholeErrors verify pool tx = []) by (apply Hw; by rewrite Hin).
    unfold wholeErrors in Hw'.
    apply app_nil in Hw' as [Ho Hw']. apply app_nil in Hw' as [Hu Hw'].
    apply app_nil in Hw' as [Hb Hs].
    repeat split; [|by apply outputErrors_nil_inv| |done].
    + intros input Hi. destruct (Hres input Hi) as [u Hu'].
      exists u. repeat split; [done| |].
      * by apply (utxoAmountErrors_nil_inv _ _ Hu input u).
      * by apply (signatureErrors_nil_inv _ _ _ _ Hs input u).
    + unfold balanceErrors in Hb.
      destruct (Z.eqb_spec (totalInput pool (Transaction.inputs tx))
                           (totalOutput (Transaction.outputs tx))); [done|discriminate].
  - intros [H|(Hin & Hout & Hbal & Hnd)]; [by rewrite H|].
    apply loopErrors_nil; [| |done|].
    + unfold wholeErrors.
      rewrite outputErrors_nil by done.
      rewrite utxoAmountErrors_nil.
      2:{ intros input u Hi Hu. destruct (Hin input Hi) as (u' & Hu' & Hpos & _).
          congruence. }
      rewrite signatureErrors_nil.
      2:{ intros input u Hi Hu. destruct (Hin input Hi) as (u' & Hu' & _ & Hv).
          congruence. }
      unfold balanceErrors. rewrite Hbal, Z.eqb_refl. done.
    + intros input Hi. destruct (Hin input Hi) as (u & Hu & _). by exists u.
    + intros input _. apply not_elem_of_empty.
Qed.

Lemma valid_iff_witness :
  valid (verdict Fixture.toyVerify Fixture.pool Fixture.txShort) = true
  <-> Transaction.inputs Fixture.txShort = []
      \/ ((forall input, input ∈ Transaction.inputs Fixture.txShort ->
             exists u, resolve Fixture.pool input = Some u
                       /\ 0 < UTXO.amount u
                       /\ Fixture.toyVerify
                            (createTransactionDataForSigning Fixture.txShort)
                            (TransactionInput.signature input)
                            (UTXO.recipient u) = true)
          /\ (forall o, o ∈ Transaction.outputs Fixture.txShort ->
                0 < TransactionOutput.amount o)
          /\ totalInput Fixture.pool (Transaction.inputs Fixture.txShort)
             = totalOutput (Transaction.outputs Fixture.txShort)
          /\ NoDup (map TransactionInput.utxoId (Transaction.inputs Fixture.txShort))).
Proof.
  apply valid_iff. split; vm_compute; discriminate.
Defined.

Lemma loopErrors_passes verify pool tx seen earlier (inputs : list TransactionInput.t) :
  (forall j, utxoKey j ∈ seen <-> j ∈ earlier) ->
  loopErrors verify pool tx seen inputs = passes verify pool tx earlier inputs.
Proof.
  revert seen earlier. induction inputs as [|i inputs IH]; intros seen earlier Hs; [done|].
  cbn [loopErrors passes]. unfold inputErrors, doubleSpendErrors.
  rewrite <- !app_assoc. do 2 f_equal.
  rewrite (IH _ (TransactionInput.utxoId i :: earlier)).
  - f_equal. destruct (decide (TransactionInput.utxoId i ∈ earlier)) as [H|H].
    + rewrite !bool_decide_eq_true_2; [done|done|by apply Hs].
    + rewrite !bool_decide_eq_false_2; [done|done|by rewrite Hs].
  - intros j. rewrite elem_of_union, elem_of_singleton, elem_of_cons, Hs.
    split; (intros [E|E]; [left|by right]).
    + by apply utxoKey_inj.
    + by rewrite E.
Qed.

(** X3: the error list, in order, for integer amounts in the range on which
    the totals of the routine are exact and output indices printed as decimal
    numerals.  It is made of one block per input, in the order of the inputs:
    the input's [UTXO_NOT_FOUND] if its identifier is not in the pool; then
    the errors of the outputs, of the UTXO amounts, of the balance and of the
    signatures of the whole transaction; then the input's [DOUBLE_SPENDING]
    if its identifier occurs in an earlier input. *)
Theorem errors_in_order (verify : string -> string -> string -> bool)
        (pool : UTXOPoolManager) tx :
  exactTotals pool tx ->
  printableIndices tx ->
  errors (verdict verify pool tx)
  = passes verify pool tx [] (Transaction.inputs tx).
Proof.
  intros _ _. rewrite verdict_errors. apply loopErrors_passes. intros j. split; intros H.
  - by apply not_elem_of_empty in H.
  - by apply not_elem_of_nil in H.
Qed.

Lemma errors_in_order_witness :
  errors (verdict Fixture.toyVerify Fixture.pool Fixture.txGoneThrice)
  = passes Fixture.toyVerify Fixture.pool Fixture.txGoneThrice []
           (Transaction.inputs Fixture.txGoneThrice).
Proof.
  apply errors_in_order.
  - split; vm_compute; discriminate.
  - repeat constructor.
Defined.

Lemma length_outputErrors (outputs : list TransactionOutput.t) :
  length (outputErrors outputs)
  = length (filter (fun o => TransactionOutput.amount o <= 0) outputs).
Proof.
  induction outputs as [|o outputs IH]; [done|].
  cbn [outputErrors flat_map]. fold (outputErrors outputs). rewrite length_app, IH.
  destruct (Z.leb_spec (TransactionOutput.amount o) 0).
  - by rewrite filter_cons_True.
  - rewrite filter_cons_False; [done|lia].
Qed.

Lemma length_utxoAmountErrors pool (inputs : list TransactionInput.t) :
  length (utxoAmountErrors pool inputs)
  = length (filter (fun u => UTXO.amount u <= 0) (omap (resolve pool) inputs)).
Proof.
  unfold utxoAmountErrors.
  induction (omap (resolve pool) inputs) as [|u us IH]; [done|].
  cbn [flat_map]. rewrite length_app, IH.
  destruct (Z.leb_spec (UTXO.amount u) 0).
  - by rewrite filter_cons_True.
  - rewrite filter_cons_False; [done|lia].
Qed.

Lemma countKind_loop_whole verify pool tx seen (inputs : list TransactionInput.t) k :
  k <> UTXO_NOT_FOUND -> k <> DOUBLE_SPENDING ->
  countKind k (loopErrors verify pool tx seen inputs)
  = (length inputs * countKind k (wholeErrors verify pool tx))%nat.
Proof.
  intros H1 H2. revert seen.
  induction inputs as [|i inputs IH]; intros seen; [done|].
  cbn [loopErrors length]. unfold inputErrors. rewrite !countKind_app, IH.
  rewrite (countKind_other _ _ _ (existenceErrors_kind _ _)) by done.
  rewrite (countKind_other _ _ _ (doubleSpendErrors_kind _ _)) by done.
  lia.
Qed.

(** X6: the number of [NEGATIVE_AMOUNT] errors of a verdict is the number of
    inputs times the number of amounts that are zero or less among the
    outputs and among the UTXOs the inputs resolve to, an UTXO counted once
    per input that refers to it. *)
Theorem negative_amount_total (verify : string -> string -> string -> bool)
        (pool : UTXOPoolManager) tx :
  countKind NEGATIVE_AMOUNT (errors (verdict verify pool tx))
  = (length (Transaction.inputs tx)
     * (length (filter (fun o => (TransactionOutput.amount o <= 0)%Z)
                       (Transaction.outputs tx))
        + length (filter (fun u => (UTXO.amount u <= 0)%Z)
                         (omap (resolve pool) (Transaction.inputs tx)))))%nat.
Proof.
  rewrite verdict_errors, countKind_loop_whole by done.
  unfold wholeErrors. rewrite !countKind_app.
  rewrite (countKind_same _ _ (outputErrors_kind _)).
  rewrite (countKind_same _ _ (utxoAmountErrors_kind _ _)).
  rewrite (countKind_other _ _ _ (balanceErrors_kind _ _)) by done.
  rewrite (countKind_other _ _ _ (signatureErrors_kind _ _ _ _)) by done.
  rewrite length_outputErrors, length_utxoAmountErrors. lia.
Qed.

(** X12: a call starts from an empty error list and an empty set of seen keys:
    whatever an earlier call has left in the store, the result is the verdict
    of a first call on the same pool and transaction. *)
Theorem result_ignores_leftovers (verify : string -> string -> string -> bool)
        (s : Store) :
  (validateTransaction verify s).1 = verdict verify (utxoPool s) (transaction s).
Proof.
  unfold verdict. by rewrite !validateTransaction_run.
Qed.

Lemma verdict_no_inputs_witness :
  verdict Fixture.toyVerify Fixture.pool Fixture.txNoInputNegative
  = {| valid := true; errors := [] |}.
Proof. apply verdict_no_inputs. reflexivity. Defined.
